(** * GPIO rotary encoder driver: decoder state machines and event reporter

    Shallow embedding of [drivers/input/misc/rotary_encoder.c].

    - C integers are carried by [Z] with their wrap-around written out:
      [u32] for [unsigned int]/[u32], [s32] for [int], [s8] for the
      [signed char] direction field.
    - The interrupt handlers mutate [struct rotary_encoder]; they are
      embedded as computations in a small state monad over that record.
      A computation can return, block for ever on the (non-recursive)
      mutex, or fault on an unsigned division by zero.
    - The GPIO lines and the input core are outside the file: a handler
      receives the levels that [gpiod_get_value_cansleep] yields during
      that invocation, and the calls made on the input device are appended
      to the [input] field in program order. *)

From Stdlib Require Import ZArith List Bool Lia.
Import ListNotations.
Local Open Scope Z_scope.

(** ** Machine integers *)

Definition u32 (x : Z) : Z := x mod 2 ^ 32.

Definition s32 (x : Z) : Z :=
  let r := x mod 2 ^ 32 in if r <? 2 ^ 31 then r else r - 2 ^ 32.

Definition s8 (x : Z) : Z :=
  let r := x mod 2 ^ 8 in if r <? 2 ^ 7 then r else r - 2 ^ 8.

(** C's logical negation on an [int]. *)
Definition lnot (v : Z) : Z := if v =? 0 then 1 else 0.

(** ** The input device, seen from the driver *)

Inductive input_event : Type :=
| input_report_rel (code : Z) (value : Z)
| input_report_abs (code : Z) (value : Z)
| input_sync.

(** A report is a relative or an absolute event; [input_sync] only
    flushes. *)
Definition is_report (e : input_event) : bool :=
  match e with
  | input_sync => false
  | _ => true
  end.

Definition reports (l : list input_event) : nat :=
  length (filter is_report l).

(** ** [struct rotary_encoder] *)

Record rotary_encoder : Type := mk_encoder {
  input : list input_event;   (* calls received by [encoder->input] *)
  access_mutex : bool;        (* [true] while the mutex is held *)
  steps : Z;
  axis : Z;
  relative_axis : bool;
  rollover : bool;
  absolute_encoder : bool;
  pos : Z;
  armed : bool;
  dir : Z;                    (* 1 - clockwise, -1 - CCW *)
  last_stable : Z
}.

Definition set_input (v : list input_event) (e : rotary_encoder) :=
  mk_encoder v (access_mutex e) (steps e) (axis e) (relative_axis e)
    (rollover e) (absolute_encoder e) (pos e) (armed e) (dir e)
    (last_stable e).

Definition set_access_mutex (v : bool) (e : rotary_encoder) :=
  mk_encoder (input e) v (steps e) (axis e) (relative_axis e)
    (rollover e) (absolute_encoder e) (pos e) (armed e) (dir e)
    (last_stable e).

Definition set_pos (v : Z) (e : rotary_encoder) :=
  mk_encoder (input e) (access_mutex e) (steps e) (axis e) (relative_axis e)
    (rollover e) (absolute_encoder e) v (armed e) (dir e)
    (last_stable e).

Definition set_armed (v : bool) (e : rotary_encoder) :=
  mk_encoder (input e) (access_mutex e) (steps e) (axis e) (relative_axis e)
    (rollover e) (absolute_encoder e) (pos e) v (dir e)
    (last_stable e).

Definition set_dir (v : Z) (e : rotary_encoder) :=
  mk_encoder (input e) (access_mutex e) (steps e) (axis e) (relative_axis e)
    (rollover e) (absolute_encoder e) (pos e) (armed e) v
    (last_stable e).

Definition set_last_stable (v : Z) (e : rotary_encoder) :=
  mk_encoder (input e) (access_mutex e) (steps e) (axis e) (relative_axis e)
    (rollover e) (absolute_encoder e) (pos e) (armed e) (dir e) v.

(** ** Handler computations *)

Inductive outcome (A : Type) : Type :=
| Returned (a : A) (e : rotary_encoder)  (* ran to its end *)
| Blocked (e : rotary_encoder)           (* sleeps for ever in [mutex_lock] *)
| DivByZero (e : rotary_encoder).        (* [%] with a zero divisor *)

Arguments Returned {A} a e.
Arguments Blocked {A} e.
Arguments DivByZero {A} e.

Definition M (A : Type) : Type := rotary_encoder -> outcome A.

Definition ret {A} (a : A) : M A := fun e => Returned a e.

Definition bind {A B} (c : M A) (k : A -> M B) : M B :=
  fun e =>
    match c e with
    | Returned a e' => k a e'
    | Blocked e' => Blocked e'
    | DivByZero e' => DivByZero e'
    end.

Declare Scope enc_scope.
Delimit Scope enc_scope with enc.
Notation "x <- c ;; k" := (bind c (fun x => k))
  (at level 61, c at next level, right associativity) : enc_scope.
Notation "c ;; k" := (bind c (fun _ => k))
  (at level 61, right associativity) : enc_scope.

Definition get {A} (f : rotary_encoder -> A) : M A :=
  fun e => Returned (f e) e.

Definition modify (f : rotary_encoder -> rotary_encoder) : M unit :=
  fun e => Returned tt (f e).

Definition when (b : bool) (c : M unit) : M unit :=
  if b then c else ret tt.

(** The encoder the computation stopped on, whatever the way it stopped. *)
Definition state_of {A} (o : outcome A) : rotary_encoder :=
  match o with
  | Returned _ e => e
  | Blocked e => e
  | DivByZero e => e
  end.

Definition returns {A} (o : outcome A) : bool :=
  match o with
  | Returned _ _ => true
  | _ => false
  end.

(** Kernel mutexes are not recursive: locking a held mutex never
    completes. *)
Definition mutex_lock : M unit :=
  fun e =>
    if access_mutex e then Blocked e
    else Returned tt (set_access_mutex true e).

Definition mutex_unlock : M unit := modify (set_access_mutex false).

Definition emit (ev : input_event) : M unit :=
  modify (fun e => set_input (input e ++ [ev]) e).

(** ** Channel sampler *)

(** [rotary_encoder_get_state]: the loop body is the folded function, the
    list holds the value read from each descriptor in index order. *)
Definition get_state_step (r val : Z) : Z :=
  let val := if negb (Z.land r 1 =? 0) then lnot val else val in
  u32 (Z.lor (u32 (Z.shiftl r 1)) (u32 val)).

Definition rotary_encoder_get_state (gpios : list Z) : Z :=
  Z.land (fold_left get_state_step gpios 0) 3.

Definition get_gpios_state_step (r val : Z) : Z :=
  u32 (Z.lor (u32 (Z.shiftl r 1)) (u32 val)).

Definition rotary_encoder_get_gpios_state (gpios : list Z) : Z :=
  fold_left get_gpios_state_step gpios 0.

(** ** Event reporter *)

(** The local [pos] of [rotary_encoder_report_event] up to the rollover
    test: the two branches on the sign of [dir]. *)
Definition report_turn (e : rotary_encoder) : Z :=
  let p := pos e in
  if dir e <? 0 then
    (* turning counter-clockwise *)
    let p := if rollover e then u32 (p + steps e) else p in
    if negb (p =? 0) then u32 (p - 1) else p
  else
    (* turning clockwise *)
    if rollover e || (p <? steps e) then u32 (p + 1) else p.

Definition rotary_encoder_report_event : M unit :=
  (rel <- get relative_axis ;;
   (if rel then
      a <- get axis ;;
      d <- get dir ;;
      emit (input_report_rel a d)
    else
      p <- get report_turn ;;
      roll <- get rollover ;;
      n <- get steps ;;
      p <- (if roll then
              if n =? 0 then (fun e => DivByZero e) else ret (p mod n)
            else ret p) ;;
      modify (set_pos p) ;;
      a <- get axis ;;
      emit (input_report_abs a (s32 p))) ;;
   emit input_sync)%enc.

(** ** Interrupt handlers *)

Definition rotary_encoder_irq (gpios : list Z) : M unit :=
  (mutex_lock ;;
   let state := rotary_encoder_get_state gpios in
   (if state =? 0 then
      a <- get armed ;;
      when a (rotary_encoder_report_event ;; modify (set_armed false))
    else if (state =? 1) || (state =? 3) then
      a <- get armed ;;
      when a (modify (set_dir (s8 (u32 (2 - state)))))
    else if state =? 2 then
      modify (set_armed true)
    else ret tt) ;;
   mutex_unlock)%enc.

Definition rotary_encoder_half_period_irq (gpios : list Z) : M unit :=
  (mutex_lock ;;
   let state := rotary_encoder_get_state gpios in
   (if negb (Z.land state 1 =? 0) then
      ls <- get last_stable ;;
      modify (set_dir (s8 (u32 (u32 (u32 (ls - state) + 1) mod 4 - 1))))
    else
      ls <- get last_stable ;;
      when (negb (state =? ls))
        (rotary_encoder_report_event ;; modify (set_last_stable state))) ;;
   mutex_unlock)%enc.

Definition rotary_encoder_quarter_period_irq (gpios : list Z) : M unit :=
  (mutex_lock ;;
   let state := rotary_encoder_get_state gpios in
   ls <- get last_stable ;;
   (if u32 (ls + 1) mod 4 =? state then
      modify (set_dir 1) ;; rotary_encoder_report_event
    else if ls =? u32 (state + 1) mod 4 then
      modify (set_dir (-1)) ;; rotary_encoder_report_event
    else ret tt) ;;
   (* out: *)
   modify (set_last_stable state) ;;
   mutex_unlock)%enc.

Definition rotary_absolute_encoder_irq (gpios : list Z) : M unit :=
  (mutex_lock ;;
   let state := rotary_encoder_get_gpios_state gpios in
   ls <- get last_stable ;;
   when (negb (state =? ls))
     (a <- get axis ;;
      emit (input_report_abs a (s32 state)) ;;
      emit input_sync ;;
      modify (set_last_stable state)) ;;
   mutex_lock)%enc.

(** Poll-mode callback: the same change detection, without the mutex. *)
Definition rotary_encoder_poll_gpios (gpios : list Z) : M unit :=
  (let state := rotary_encoder_get_gpios_state gpios in
   ls <- get last_stable ;;
   when (negb (state =? ls))
     (a <- get axis ;;
      emit (input_report_abs a (s32 state)) ;;
      emit input_sync ;;
      modify (set_last_stable state)))%enc.

(** ** Probe *)

Inductive irq_handler_t : Type :=
| encoder_irq
| half_period_irq
| quarter_period_irq
| absolute_encoder_irq.

Definition run_handler (h : irq_handler_t) : list Z -> M unit :=
  match h with
  | encoder_irq => rotary_encoder_irq
  | half_period_irq => rotary_encoder_half_period_irq
  | quarter_period_irq => rotary_encoder_quarter_period_irq
  | absolute_encoder_irq => rotary_absolute_encoder_irq
  end.

Definition ENOMEM : Z := 12.
Definition EINVAL : Z := 22.

(** What the platform answers to the calls [rotary_encoder_probe] makes:
    device properties, and the outcome of each acquisition. *)
Record platform_device : Type := mk_platform_device {
  kzalloc_encoder : bool;                  (* [false]: allocation failed *)
  prop_steps : option Z;                   (* "rotary-encoder,steps" *)
  prop_steps_per_period : option Z;        (* "rotary-encoder,steps-per-period" *)
  prop_half_period : bool;                 (* "rotary-encoder,half-period" *)
  prop_rollover : bool;                    (* "rotary-encoder,rollover" *)
  prop_axis : option Z;                    (* "linux,axis" *)
  prop_relative_axis : bool;               (* "rotary-encoder,relative-axis" *)
  prop_absolute_encoder : bool;            (* "rotary-encoder,absolute-encoder" *)
  gpiod_get_array : Z + list Z;            (* error, or the lines with their
                                              level at probe time *)
  kzalloc_irq : bool;
  gpiod_to_irq : nat -> Z;                 (* per line index *)
  request_threaded_irq : nat -> Z;         (* per line index; 0 on success *)
  poll_mode_support : bool;                (* CONFIG_..._POLL_MODE_SUPPORT *)
  allocate_polled_device : bool;
  register_polled_device : Z;
  allocate_device : bool;
  register_device : Z
}.

Inductive probe_result : Type :=
| Probe_error (err : Z)
| Probe_ok (e : rotary_encoder) (handler : irq_handler_t) (polled : bool).

(** [devm_kzalloc] hands out zeroed memory. *)
Definition kzalloc_rotary_encoder : rotary_encoder :=
  mk_encoder [] false 0 0 false false false 0 false 0 0.

Definition read_u32 (p : option Z) (old : Z) : Z :=
  match p with
  | Some v => v
  | None => old
  end.

(** Lines 283-304: the properties copied into the zeroed encoder; a
    [u32] property that cannot be read leaves its field as it was. *)
Definition probe_properties (pdev : platform_device) : rotary_encoder :=
  let e := kzalloc_rotary_encoder in
  mk_encoder (input e) (access_mutex e)
    (read_u32 (prop_steps pdev) (steps e))
    (read_u32 (prop_axis pdev) (axis e))
    (prop_relative_axis pdev)
    (prop_rollover pdev)
    (absolute_encoder e) (pos e) (armed e) (dir e)
    (last_stable e).

(** Lines 285-297: [steps_per_period], with the deprecated
    'half-period' fallback. *)
Definition probe_steps_per_period (pdev : platform_device) : Z :=
  match prop_steps_per_period pdev with
  | Some v => v
  | None => if prop_half_period pdev then 2 else 1
  end.

Definition set_absolute_encoder (v : bool) (e : rotary_encoder) :=
  mk_encoder (input e) (access_mutex e) (steps e) (axis e) (relative_axis e)
    (rollover e) v (pos e) (armed e) (dir e) (last_stable e).

(** Lines 316-342: the handler chosen for the encoder. For a shift count
    of 32 or more C leaves [>>] undefined; [Z.shiftr] is its value below
    that. *)
Definition probe_handler (pdev : platform_device) (e : rotary_encoder)
    (steps_per_period : Z) (gpios : list Z)
  : Z + rotary_encoder * irq_handler_t :=
  let e := set_absolute_encoder (prop_absolute_encoder pdev) e in
  if absolute_encoder e then
    inr (e, absolute_encoder_irq)
  else
    let ratio := Z.shiftr steps_per_period (Z.of_nat (length gpios) - 2) in
    if ratio =? 4 then
      inr (set_last_stable (rotary_encoder_get_state gpios) e,
           quarter_period_irq)
    else if ratio =? 2 then
      inr (set_last_stable (rotary_encoder_get_state gpios) e,
           half_period_irq)
    else if ratio =? 1 then
      inr (e, encoder_irq)
    else
      inl (- EINVAL).

Inductive irq_setup : Type :=
| Irq_error (err : Z)
| Irq_polled
| Irq_requested.

Definition rotary_encoder_register_poll_device (pdev : platform_device) : Z :=
  if negb (allocate_polled_device pdev) then - ENOMEM
  else register_polled_device pdev.

(** Lines 351-376: the loop over the lines, [n] lines left from index [i]. *)
Fixpoint probe_irqs (pdev : platform_device) (e : rotary_encoder)
    (n i : nat) : irq_setup :=
  match n with
  | O => Irq_requested
  | S n' =>
      let irq := gpiod_to_irq pdev i in
      if poll_mode_support pdev && ((irq <? 0) && absolute_encoder e) then
        let err := rotary_encoder_register_poll_device pdev in
        if negb (err =? 0) then Irq_error err else Irq_polled
      else
        let err := request_threaded_irq pdev i in
        if negb (err =? 0) then Irq_error err
        else probe_irqs pdev e n' (S i)
  end.

Definition rotary_encoder_probe (pdev : platform_device) : probe_result :=
  if negb (kzalloc_encoder pdev) then Probe_error (- ENOMEM)
  else
    let e := probe_properties pdev in
    let steps_per_period := probe_steps_per_period pdev in
    match gpiod_get_array pdev with
    | inl err => Probe_error err
    | inr gpios =>
        if (length gpios <? 2)%nat then Probe_error (- EINVAL)
        else
          match probe_handler pdev e steps_per_period gpios with
          | inl err => Probe_error err
          | inr (e, handler) =>
              if negb (kzalloc_irq pdev) then Probe_error (- ENOMEM)
              else
                match probe_irqs pdev e (length gpios) 0 with
                | Irq_error err => Probe_error err
                | Irq_polled => Probe_ok e handler true
                | Irq_requested =>
                    if negb (allocate_device pdev) then Probe_error (- ENOMEM)
                    else if negb (register_device pdev =? 0)
                    then Probe_error (register_device pdev)
                    else Probe_ok e handler false
                end
          end
    end.

(** ** Sample sequences *)

(** One handler invocation per sample, in order; a handler that does not
    return stops the sequence. *)
Fixpoint deliver (h : irq_handler_t) (samples : list (list Z)) : M unit :=
  match samples with
  | [] => ret tt
  | gpios :: rest => (run_handler h gpios ;; deliver h rest)%enc
  end.

(** ** What one call of the reporter does *)

(** The committed position: [report_turn], reduced when rolling over. *)
Definition report_pos (e : rotary_encoder) : Z :=
  if rollover e then report_turn e mod steps e else report_turn e.

(** The reporter divides by [steps] only on an absolute axis with
    rollover. *)
Definition report_ok (e : rotary_encoder) : bool :=
  relative_axis e || negb (rollover e) || negb (steps e =? 0).

Definition reported (e : rotary_encoder) : list input_event :=
  [ if relative_axis e then input_report_rel (axis e) (dir e)
    else input_report_abs (axis e) (s32 (report_pos e));
    input_sync ].

Definition after_report (e : rotary_encoder) : rotary_encoder :=
  set_input (input e ++ reported e)
    (if relative_axis e then e else set_pos (report_pos e) e).

(** ** The position update in the words of the specification *)

(** Direction -1: add [steps] first if [rollover], then decrement if
    nonzero. Direction +1: increment iff [rollover] or
    [position < steps]. Finally [position mod steps] if [rollover].
    [position] is a 32-bit unsigned field. *)
Definition spec_position (steps : Z) (rollover : bool)
    (position direction : Z) : Z :=
  let moved :=
    if direction =? -1 then
      let raised := if rollover then u32 (position + steps) else position in
      if raised =? 0 then raised else u32 (raised - 1)
    else if direction =? 1 then
      if rollover then u32 (position + 1)
      else if position <? steps then u32 (position + 1)
      else position
    else position in
  if rollover then moved mod steps else moved.

(** An encoder on an absolute axis, at rest. *)
Definition abs_axis_encoder (n : Z) (roll : bool) (p d : Z) : rotary_encoder :=
  mk_encoder [] false n 0 false roll false p false d 0.

(** Two samples are adjacent when they are one step apart on the
    four-state cycle. *)
Definition adjacent (a b : Z) : Prop :=
  (a - b) mod 4 = 1 \/ (a - b) mod 4 = 3.

(** The acquisitions of the probe all succeed. *)
Definition acquires (pdev : platform_device) (n : nat) : Prop :=
  kzalloc_irq pdev = true /\
  (forall i, (i < n)%nat -> request_threaded_irq pdev i = 0) /\
  allocate_polled_device pdev = true /\
  register_polled_device pdev = 0 /\
  allocate_device pdev = true /\
  register_device pdev = 0.

(** The same platform device with other decode-mode selectors. *)
Definition with_steps_per_period (spp : option Z) (half : bool)
    (p : platform_device) : platform_device :=
  mk_platform_device (kzalloc_encoder p) (prop_steps p) spp half
    (prop_rollover p) (prop_axis p) (prop_relative_axis p)
    (prop_absolute_encoder p) (gpiod_get_array p) (kzalloc_irq p)
    (gpiod_to_irq p) (request_threaded_irq p) (poll_mode_support p)
    (allocate_polled_device p) (register_polled_device p)
    (allocate_device p) (register_device p).

(** The value a handler samples: the gray-decoded state for the three
    quadrature handlers, the raw line levels for the absolute one. *)
Definition sample (h : irq_handler_t) (gpios : list Z) : Z :=
  match h with
  | absolute_encoder_irq => rotary_encoder_get_gpios_state gpios
  | _ => rotary_encoder_get_state gpios
  end.

(** ** Concrete encoders and devices *)

(** A relative-axis encoder as the probe leaves it. *)
Definition relative_encoder : rotary_encoder :=
  mk_encoder [] false 24 0 true false false 0 false 0 0.

(** The same encoder after one counter-clockwise detent
    (states 1, 2, 3, 0). *)
Definition turned_ccw : rotary_encoder :=
  state_of (deliver encoder_irq [[0; 1]; [1; 1]; [1; 0]; [0; 0]]
              relative_encoder).

(** A half-period encoder whose reference state was sampled as 3. *)
Definition half_encoder_at_3 : rotary_encoder :=
  set_last_stable 3 relative_encoder.

(** A device whose acquisitions all succeed. *)
Definition example_device (spp : option Z) (absenc : bool)
    (gpios : list Z) : platform_device :=
  mk_platform_device true (Some 24) spp false false (Some 0) true absenc
    (inr gpios) true (fun i => 100 + Z.of_nat i) (fun _ => 0) false
    true 0 true 0.

(** ** Line levels as numbers *)

(** Every line reads as 0 or 1. *)
Definition boolean_levels (gpios : list Z) : Prop :=
  Forall (fun v => v = 0 \/ v = 1) gpios.

(** The number of lines that read high. *)
Definition level_sum (gpios : list Z) : Z := fold_right Z.add 0 gpios.

(** The levels read as one binary number, first line most significant. *)
Definition binary_value (gpios : list Z) : Z :=
  fold_left (fun r v => 2 * r + v) gpios 0.

(** ** Sequences of polls and of reports *)

(** The poll callback run once per sample. *)
Fixpoint poll_all (samples : list (list Z)) : M unit :=
  match samples with
  | [] => ret tt
  | gpios :: rest => (rotary_encoder_poll_gpios gpios ;; poll_all rest)%enc
  end.

(** The states of a sequence that differ from their predecessor, [prev]
    being the predecessor of the first. *)
Fixpoint changes (prev : Z) (states : list Z) : list Z :=
  match states with
  | [] => []
  | s :: rest =>
      if s =? prev then changes s rest else s :: changes s rest
  end.

(** The reporter called [k] times in a row. *)
Fixpoint report_events (k : nat) : M unit :=
  match k with
  | O => ret tt
  | S k' => (rotary_encoder_report_event ;; report_events k')%enc
  end.

(** ** The decoders as transition functions *)

(** What one returning invocation of [rotary_encoder_irq] does to the
    encoder, the mutex apart, given the sampled state. *)
Definition full_period_next (state : Z) (e : rotary_encoder)
  : rotary_encoder :=
  if state =? 0 then
    if armed e then set_armed false (after_report e) else e
  else if (state =? 1) || (state =? 3) then
    if armed e then set_dir (2 - state) e else e
  else if state =? 2 then set_armed true e
  else e.

(** The same for [rotary_encoder_half_period_irq]. *)
Definition half_period_next (state : Z) (e : rotary_encoder)
  : rotary_encoder :=
  if negb (Z.land state 1 =? 0) then
    set_dir ((last_stable e - state + 1) mod 4 - 1) e
  else if state =? last_stable e then e
  else set_last_stable state (after_report e).

(** The same for [rotary_encoder_quarter_period_irq]. *)
Definition quarter_period_next (state : Z) (e : rotary_encoder)
  : rotary_encoder :=
  set_last_stable state
    (if u32 (last_stable e + 1) mod 4 =? state
     then after_report (set_dir 1 e)
     else if last_stable e =? u32 (state + 1) mod 4
     then after_report (set_dir (-1) e)
     else e).

(** How many samples of a sequence decode to [state]. *)
Definition count_state (state : Z) (samples : list (list Z)) : nat :=
  length (filter (fun g => rotary_encoder_get_state g =? state) samples).

(** The direction latched by a run of samples on an armed encoder: each
    1 or 3 overwrites it with [2 - state]. *)
Definition latched_dir (d : Z) (states : list Z) : Z :=
  fold_left (fun d s => if (s =? 1) || (s =? 3) then 2 - s else d) states d.

(** ** Unit steps *)

(** A relative event of one step on axis [a], or a sync. *)
Definition unit_event (a : Z) (ev : input_event) : Prop :=
  ev = input_sync \/ ev = input_report_rel a 1 \/
  ev = input_report_rel a (-1).

(** The stored direction is a unit and, for the half-period handler, the
    reference state is even; the quarter-period handler sets the direction
    itself before each report. *)
Definition unit_direction (h : irq_handler_t) (e : rotary_encoder) : Prop :=
  match h with
  | encoder_irq => dir e = 1 \/ dir e = -1
  | half_period_irq => (dir e = 1 \/ dir e = -1) /\ last_stable e mod 2 = 0
  | quarter_period_irq => True
  | absolute_encoder_irq => False
  end.

(** ** What the input device is told to expect *)

Inductive input_capability : Type :=
| EV_REL (code : Z)
| EV_ABS (code minimum maximum fuzz flat : Z).

(** [rotary_encoder_setup_input_params]: the event capability declared on
    the input device (name, bus type and parent are left out). *)
Definition rotary_encoder_setup_input_params (e : rotary_encoder)
  : input_capability :=
  if relative_axis e then EV_REL (axis e)
  else EV_ABS (axis e) 0 (s32 (steps e)) 0 1.

(** An event the declared capability covers: the declared relative axis,
    or the declared absolute axis with a value inside the declared
    range. *)
Definition event_declared (c : input_capability) (ev : input_event) : Prop :=
  match ev, c with
  | input_sync, _ => True
  | input_report_rel code _, EV_REL c0 => code = c0
  | input_report_abs code v, EV_ABS c0 lo hi _ _ => code = c0 /\ lo <= v <= hi
  | _, _ => False
  end.

(** The position is where the wrap or clamp policy keeps it. *)
Definition position_in_range (e : rotary_encoder) : Prop :=
  if rollover e then 0 < steps e /\ 0 <= pos e < steps e
  else 0 <= pos e <= steps e.

(** The encoder agrees with what was declared: [steps] fits an [int],
    the position is in range on an absolute axis, and every event sent so
    far is covered by the declared capability. *)
Definition declared_state (e : rotary_encoder) : Prop :=
  steps e < 2 ^ 31 /\
  (relative_axis e = false -> position_in_range e) /\
  Forall (event_declared (rotary_encoder_setup_input_params e)) (input e).

(** ** Counting relative steps *)

(** The sum of the relative values sent to the input device. *)
Fixpoint rel_sum (l : list input_event) : Z :=
  match l with
  | [] => 0
  | input_report_rel _ v :: rest => v + rel_sum rest
  | _ :: rest => rel_sum rest
  end.

(** No state of the sequence is opposite to its predecessor on the
    four-state cycle, [prev] being the predecessor of the first. *)
Fixpoint no_opposite (prev : Z) (states : list Z) : Prop :=
  match states with
  | [] => True
  | s :: rest => s <> (prev + 2) mod 4 /\ no_opposite s rest
  end.

(** ** More concrete inputs *)

(** Two armings, the second sampled twice, each followed by a rest. *)
Definition two_detents : list (list Z) :=
  [[1; 1]; [0; 0]; [0; 0]; [1; 1]; [1; 1]; [0; 0]].

(** A two-line full-period device whose second interrupt request fails
    with [err]. *)
Definition failing_irq_device (err : Z) : platform_device :=
  mk_platform_device true None None false false None true false
    (inr [0; 0]) true (fun _ => 7) (fun i => if Nat.eqb i 1 then err else 0)
    false true 0 true 0.

(** A three-line absolute encoder on a kernel with poll support whose
    second line has no interrupt; the plain input device could not be
    allocated. *)
Definition polled_device : platform_device :=
  mk_platform_device true (Some 7) None false false (Some 0) false true
    (inr [0; 1; 1]) true (fun i => if Nat.eqb i 1 then -6 else 40)
    (fun _ => 0) true true 0 false 0.

(** ** Proof automation *)

(** Unfold one handler down to the monad's primitives. *)
Ltac run :=
  unfold rotary_encoder_irq, rotary_encoder_half_period_irq,
    rotary_encoder_quarter_period_irq, rotary_absolute_encoder_irq,
    rotary_encoder_poll_gpios, rotary_encoder_report_event,
    mutex_lock, mutex_unlock, emit, modify, get, when, ret, bind;
  cbn [access_mutex set_access_mutex armed set_armed dir set_dir
       last_stable set_last_stable input set_input pos set_pos
       relative_axis rollover steps axis absolute_encoder state_of returns].

(** Open the encoder record and rewrite with the field equations. *)
Ltac enc e :=
  destruct e as [inp mtx n ax rel roll absenc p arm d ls];
  cbn [access_mutex armed dir last_stable input pos relative_axis rollover
       steps axis absolute_encoder] in *; subst.

Ltac split_ifs :=
  repeat match goal with
         | |- context [if ?c then _ else _] => destruct c eqn:?; cbn
         end.

(** Forget how the sampled values were computed. *)
Ltac abstract_samples g :=
  let s := fresh "s" in
  let r := fresh "r" in
  set (s := rotary_encoder_get_state g);
  set (r := rotary_encoder_get_gpios_state g);
  clearbody s r.

(** * Properties *)

(** ** Sampler *)

Lemma get_state_range (gpios : list Z) :
  0 <= rotary_encoder_get_state gpios < 4.
Proof.
  unfold rotary_encoder_get_state.
  change 3 with (Z.ones 2).
  rewrite Z.land_ones by lia.
  apply Z.mod_pos_bound. reflexivity.
Qed.

Lemma get_state_cases (gpios : list Z) :
  rotary_encoder_get_state gpios = 0 \/ rotary_encoder_get_state gpios = 1 \/
  rotary_encoder_get_state gpios = 2 \/ rotary_encoder_get_state gpios = 3.
Proof. pose proof (get_state_range gpios). lia. Qed.

Lemma u32_range (x : Z) : 0 <= u32 x < 2 ^ 32.
Proof. unfold u32. apply Z.mod_pos_bound. reflexivity. Qed.

Example get_state_gray :
  map rotary_encoder_get_state [[0; 0]; [0; 1]; [1; 1]; [1; 0]] = [0; 1; 2; 3].
Proof. reflexivity. Qed.

(** ** Reporter *)

Lemma report_event_returns (e : rotary_encoder) :
  report_ok e = true ->
  rotary_encoder_report_event e = Returned tt (after_report e).
Proof.
  unfold report_ok, after_report, reported, report_pos. intros Hok. run.
  destruct (relative_axis e) eqn:Hrel; cbn.
  - unfold set_input; cbn. rewrite <- app_assoc. reflexivity.
  - destruct (rollover e) eqn:Hroll; cbn.
    + destruct (steps e =? 0) eqn:Hz; [discriminate|]. cbn.
      unfold set_input, set_pos; cbn. rewrite <- app_assoc. reflexivity.
    + unfold set_input, set_pos; cbn. rewrite <- app_assoc. reflexivity.
Qed.

Lemma report_event_faults (e : rotary_encoder) :
  report_ok e = false ->
  rotary_encoder_report_event e = DivByZero e.
Proof.
  unfold report_ok. intros Hok. run.
  destruct (relative_axis e); [discriminate|].
  destruct (rollover e); [|discriminate].
  destruct (steps e =? 0); [|discriminate]. reflexivity.
Qed.

Lemma reports_app (l1 l2 : list input_event) :
  reports (l1 ++ l2) = (reports l1 + reports l2)%nat.
Proof. unfold reports. rewrite filter_app, length_app. reflexivity. Qed.

Lemma reports_reported (e : rotary_encoder) : reports (reported e) = 1%nat.
Proof. unfold reported. destruct (relative_axis e); reflexivity. Qed.

(** ** Full-period handler, one sample at a time *)

Lemma held_blocks (h : irq_handler_t) (gpios : list Z) (e : rotary_encoder) :
  access_mutex e = true -> run_handler h gpios e = Blocked e.
Proof. intros Hm. enc e. destruct h; reflexivity. Qed.

Lemma irq_rest_unarmed e g :
  access_mutex e = false -> rotary_encoder_get_state g = 0 ->
  armed e = false ->
  rotary_encoder_irq g e = Returned tt e.
Proof. intros Hm Hs Ha. enc e. run. rewrite Hs. reflexivity. Qed.

Lemma irq_rest_armed e g :
  access_mutex e = false -> rotary_encoder_get_state g = 0 ->
  armed e = true -> report_ok e = true ->
  rotary_encoder_irq g e = Returned tt (set_armed false (after_report e)).
Proof.
  intros Hm Hs Ha Hok. enc e. unfold report_ok in Hok. cbn in Hok.
  unfold after_report, reported, report_pos. run. rewrite Hs. cbn.
  destruct rel; cbn; [rewrite <- app_assoc; reflexivity|].
  destruct roll; cbn; [|rewrite <- app_assoc; reflexivity].
  cbn in Hok. destruct (n =? 0); [discriminate|]. cbn.
  rewrite <- app_assoc; reflexivity.
Qed.

Lemma irq_rest_faults e g :
  access_mutex e = false -> rotary_encoder_get_state g = 0 ->
  armed e = true -> report_ok e = false ->
  rotary_encoder_irq g e = DivByZero (set_access_mutex true e).
Proof.
  intros Hm Hs Ha Hok. enc e. unfold report_ok in Hok. cbn in Hok.
  run. rewrite Hs. cbn.
  destruct rel; [discriminate|]. destruct roll; [|discriminate].
  cbn in Hok |- *. destruct (n =? 0); [|discriminate]. reflexivity.
Qed.

Lemma irq_midpoint e g :
  access_mutex e = false -> rotary_encoder_get_state g = 2 ->
  rotary_encoder_irq g e = Returned tt (set_armed true e).
Proof. intros Hm Hs. enc e. run. rewrite Hs. reflexivity. Qed.

Lemma irq_transition e g :
  access_mutex e = false ->
  rotary_encoder_get_state g = 1 \/ rotary_encoder_get_state g = 3 ->
  rotary_encoder_irq g e =
  Returned tt
    (if armed e then set_dir (2 - rotary_encoder_get_state g) e else e).
Proof.
  intros Hm Hs. enc e. run.
  destruct Hs as [-> | ->]; cbn [Z.eqb orb Pos.eqb]; destruct arm; reflexivity.
Qed.

Lemma deliver_cons h g rest e e' :
  run_handler h g e = Returned tt e' ->
  deliver h (g :: rest) e = deliver h rest e'.
Proof. intros H. cbn [deliver]. unfold bind. rewrite H. reflexivity. Qed.

Lemma deliver_nil h e : deliver h [] e = Returned tt e.
Proof. reflexivity. Qed.

Lemma reports_after_report e :
  reports (input (after_report e)) = S (reports (input e)).
Proof.
  unfold after_report. cbn [input set_input].
  rewrite reports_app, reports_reported. lia.
Qed.

(** The first three samples of a detent: rest, midpoint, then the
    transition state [s]; nothing is reported and the direction is
    latched. *)
Lemma irq_latches e g0 g1 g2 :
  armed e = false -> access_mutex e = false ->
  rotary_encoder_get_state g0 = 0 ->
  rotary_encoder_get_state g1 = 2 ->
  rotary_encoder_get_state g2 = 1 \/ rotary_encoder_get_state g2 = 3 ->
  deliver encoder_irq [g0; g1; g2] e =
  Returned tt (set_dir (2 - rotary_encoder_get_state g2) (set_armed true e)).
Proof.
  intros Ha Hm H0 H1 H2.
  rewrite (deliver_cons _ _ _ _ e) by (apply irq_rest_unarmed; assumption).
  rewrite (deliver_cons _ _ _ _ (set_armed true e))
    by (apply irq_midpoint; assumption).
  rewrite (deliver_cons _ _ _ _
             (set_dir (2 - rotary_encoder_get_state g2) (set_armed true e))).
  - reflexivity.
  - cbn [run_handler]. rewrite irq_transition by (enc e; auto). reflexivity.
Qed.

Lemma irq_round_trip e g0 g1 g2 g3 :
  armed e = false -> access_mutex e = false -> report_ok e = true ->
  rotary_encoder_get_state g0 = 0 ->
  rotary_encoder_get_state g1 = 2 ->
  rotary_encoder_get_state g2 = 1 \/ rotary_encoder_get_state g2 = 3 ->
  rotary_encoder_get_state g3 = 0 ->
  deliver encoder_irq [g0; g1; g2; g3] e =
  Returned tt (after_report (set_dir (2 - rotary_encoder_get_state g2) e)).
Proof.
  intros Ha Hm Hok H0 H1 H2 H3.
  rewrite (deliver_cons _ _ _ _ e) by (apply irq_rest_unarmed; assumption).
  rewrite (deliver_cons _ _ _ _ (set_armed true e))
    by (apply irq_midpoint; assumption).
  rewrite (deliver_cons _ _ _ _
             (set_dir (2 - rotary_encoder_get_state g2) (set_armed true e)))
    by (cbn [run_handler]; rewrite irq_transition by (enc e; auto);
        reflexivity).
  rewrite (deliver_cons _ _ _ _
             (after_report (set_dir (2 - rotary_encoder_get_state g2) e))).
  - reflexivity.
  - cbn [run_handler]. rewrite irq_rest_armed; try (enc e; auto; fail).
    enc e. unfold after_report. cbn. destruct rel; reflexivity.
Qed.

(** ** Half-period handler *)

Lemma land_1_parity (x : Z) : Z.land x 1 = x mod 2.
Proof. change 1 with (Z.ones 1). apply Z.land_ones. lia. Qed.

Lemma half_period_dir_value (ls s : Z) :
  s8 (u32 (u32 (u32 (ls - s) + 1) mod 4 - 1)) = (ls - s + 1) mod 4 - 1.
Proof.
  assert (Hm : u32 (u32 (ls - s) + 1) mod 4 = (ls - s + 1) mod 4).
  { unfold u32. change (2 ^ 32) with 4294967296.
    Z.to_euclidean_division_equations. lia. }
  rewrite Hm.
  assert (Hr : 0 <= (ls - s + 1) mod 4 < 4) by (apply Z.mod_pos_bound; lia).
  assert (Hc : (ls - s + 1) mod 4 = 0 \/ (ls - s + 1) mod 4 = 1 \/
               (ls - s + 1) mod 4 = 2 \/ (ls - s + 1) mod 4 = 3) by lia.
  destruct Hc as [-> | [-> | [-> | ->]]]; reflexivity.
Qed.

Lemma half_odd e g :
  access_mutex e = false ->
  Z.land (rotary_encoder_get_state g) 1 <> 0 ->
  rotary_encoder_half_period_irq g e =
  Returned tt
    (set_dir ((last_stable e - rotary_encoder_get_state g + 1) mod 4 - 1) e).
Proof.
  intros Hm Hs. enc e. run.
  apply Z.eqb_neq in Hs. rewrite Hs. cbn.
  rewrite half_period_dir_value. reflexivity.
Qed.

Lemma half_even_same e g :
  access_mutex e = false ->
  Z.land (rotary_encoder_get_state g) 1 = 0 ->
  rotary_encoder_get_state g = last_stable e ->
  rotary_encoder_half_period_irq g e = Returned tt e.
Proof.
  intros Hm Hs Hl. enc e. run.
  apply Z.eqb_eq in Hs. rewrite Hs. cbn. rewrite Z.eqb_refl. reflexivity.
Qed.

Lemma half_even_commit e g :
  access_mutex e = false ->
  Z.land (rotary_encoder_get_state g) 1 = 0 ->
  rotary_encoder_get_state g <> last_stable e ->
  report_ok e = true ->
  rotary_encoder_half_period_irq g e =
  Returned tt (set_last_stable (rotary_encoder_get_state g) (after_report e)).
Proof.
  intros Hm Hs Hl Hok. enc e. unfold report_ok in Hok. cbn in Hok.
  unfold after_report, reported, report_pos. run.
  apply Z.eqb_eq in Hs. apply Z.eqb_neq in Hl.
  rewrite Hs. cbn. rewrite Hl. cbn.
  destruct rel; cbn; [rewrite <- app_assoc; reflexivity|].
  destruct roll; cbn; [|rewrite <- app_assoc; reflexivity].
  cbn in Hok. destruct (n =? 0); [discriminate|]. cbn.
  rewrite <- app_assoc; reflexivity.
Qed.

Lemma half_even_faults e g :
  access_mutex e = false ->
  Z.land (rotary_encoder_get_state g) 1 = 0 ->
  rotary_encoder_get_state g <> last_stable e ->
  report_ok e = false ->
  rotary_encoder_half_period_irq g e = DivByZero (set_access_mutex true e).
Proof.
  intros Hm Hs Hl Hok. enc e. unfold report_ok in Hok. cbn in Hok. run.
  apply Z.eqb_eq in Hs. apply Z.eqb_neq in Hl.
  rewrite Hs. cbn. rewrite Hl. cbn.
  destruct rel; [discriminate|]. destruct roll; [|discriminate].
  cbn in Hok |- *. destruct (n =? 0); [|discriminate]. reflexivity.
Qed.

(** ** Quarter-period handler *)

(** The reference state after the handler, and the direction it reports
    (if any), as the two tests of the handler decide them. *)
Lemma quarter_step e g :
  access_mutex e = false -> report_ok e = true ->
  rotary_encoder_quarter_period_irq g e =
  Returned tt
    (set_last_stable (rotary_encoder_get_state g)
       (if u32 (last_stable e + 1) mod 4 =? rotary_encoder_get_state g
        then after_report (set_dir 1 e)
        else if last_stable e =? u32 (rotary_encoder_get_state g + 1) mod 4
        then after_report (set_dir (-1) e)
        else e)).
Proof.
  intros Hm Hok. enc e. unfold report_ok in Hok. cbn in Hok.
  unfold after_report, reported, report_pos, report_turn. run.
  destruct (u32 (ls + 1) mod 4 =? rotary_encoder_get_state g);
    [|destruct (ls =? u32 (rotary_encoder_get_state g + 1) mod 4)];
    cbn; try reflexivity;
    (destruct rel; cbn; [rewrite <- app_assoc; reflexivity|];
     destruct roll; cbn; [|rewrite <- app_assoc; reflexivity];
     cbn in Hok; destruct (n =? 0); [discriminate|]; cbn;
     rewrite <- app_assoc; reflexivity).
Qed.

Lemma quarter_skip e g :
  access_mutex e = false ->
  (u32 (last_stable e + 1) mod 4 =? rotary_encoder_get_state g) = false ->
  (last_stable e =? u32 (rotary_encoder_get_state g + 1) mod 4) = false ->
  rotary_encoder_quarter_period_irq g e =
  Returned tt (set_last_stable (rotary_encoder_get_state g) e).
Proof. intros Hm H1 H2. enc e. run. rewrite H1, H2. reflexivity. Qed.

(** ** Absolute handler and poll callback *)

(** The change detection shared by the interrupt handler and the poll
    callback. *)
Lemma poll_gpios_step e g :
  rotary_encoder_poll_gpios g e =
  Returned tt
    (if rotary_encoder_get_gpios_state g =? last_stable e then e
     else set_last_stable (rotary_encoder_get_gpios_state g)
            (set_input
               (input e ++
                [input_report_abs (axis e)
                   (s32 (rotary_encoder_get_gpios_state g)); input_sync])
               e)).
Proof.
  enc e. run.
  destruct (rotary_encoder_get_gpios_state g =? ls); cbn;
    [|rewrite <- app_assoc]; reflexivity.
Qed.

Lemma absolute_irq_step e g :
  access_mutex e = false ->
  rotary_absolute_encoder_irq g e =
  Blocked
    (set_access_mutex true
       (if rotary_encoder_get_gpios_state g =? last_stable e then e
        else set_last_stable (rotary_encoder_get_gpios_state g)
               (set_input
                  (input e ++
                   [input_report_abs (axis e)
                      (s32 (rotary_encoder_get_gpios_state g)); input_sync])
                  e))).
Proof.
  intros Hm. enc e. run.
  destruct (rotary_encoder_get_gpios_state g =? ls); cbn;
    [|rewrite <- app_assoc]; reflexivity.
Qed.

(** * Full-period decoding *)

(** C1, on the code: from rest and unarmed, the samples 00, 10 arm the
    encoder without reporting, and the closing 00 then reports exactly one
    event, with the direction that was stored before the sequence: the
    three samples have the effect of one reporter call on the initial
    encoder. *)
Theorem full_period_bounce_commits e g0 g1 g2 :
  armed e = false -> access_mutex e = false -> report_ok e = true ->
  rotary_encoder_get_state g0 = 0 ->
  rotary_encoder_get_state g1 = 2 ->
  rotary_encoder_get_state g2 = 0 ->
  deliver encoder_irq [g0; g1] e = Returned tt (set_armed true e) /\
  deliver encoder_irq [g0; g1; g2] e = Returned tt (after_report e) /\
  input (after_report e) = input e ++ reported e /\
  reports (input (after_report e)) = S (reports (input e)).
Proof.
  intros Ha Hm Hok H0 H1 H2.
  assert (S1 : run_handler encoder_irq g0 e = Returned tt e)
    by (apply irq_rest_unarmed; assumption).
  assert (S2 : run_handler encoder_irq g1 e = Returned tt (set_armed true e))
    by (apply irq_midpoint; assumption).
  assert (S3 : run_handler encoder_irq g2 (set_armed true e) =
               Returned tt (after_report e)).
  { cbn [run_handler]. rewrite irq_rest_armed; try (enc e; auto; fail).
    enc e. unfold after_report. cbn. destruct rel; reflexivity. }
  repeat split.
  - rewrite (deliver_cons _ _ _ _ _ S1), (deliver_cons _ _ _ _ _ S2).
    reflexivity.
  - rewrite (deliver_cons _ _ _ _ _ S1), (deliver_cons _ _ _ _ _ S2),
      (deliver_cons _ _ _ _ _ S3). reflexivity.
  - apply reports_after_report.
Qed.

Lemma full_period_bounce_commits_witness :
  deliver encoder_irq [[0; 0]; [1; 1]] turned_ccw =
    Returned tt (set_armed true turned_ccw) /\
  deliver encoder_irq [[0; 0]; [1; 1]; [0; 0]] turned_ccw =
    Returned tt (after_report turned_ccw) /\
  input (after_report turned_ccw) = input turned_ccw ++ reported turned_ccw /\
  reports (input (after_report turned_ccw)) = S (reports (input turned_ccw)).
Proof.
  apply (full_period_bounce_commits turned_ccw [0; 0] [1; 1] [0; 0]);
    reflexivity.
Defined.

(** C1 as written fails: an encoder at rest and unarmed that has turned
    once before reports a second event on 00, 10, 00. *)
Lemma full_period_bounce_reports_event :
  armed turned_ccw = false /\ access_mutex turned_ccw = false /\
  map rotary_encoder_get_state [[0; 0]; [1; 1]; [0; 0]] = [0; 2; 0] /\
  input turned_ccw = [input_report_rel 0 (-1); input_sync] /\
  deliver encoder_irq [[0; 0]; [1; 1]; [0; 0]] turned_ccw =
    Returned tt
      (set_input [input_report_rel 0 (-1); input_sync;
                  input_report_rel 0 (-1); input_sync] turned_ccw).
Proof. repeat split. Qed.

(** C2: from rest and unarmed, 00, 10, 01, 00 reports nothing on the first
    three samples and exactly one event, of direction +1, on the last;
    00, 10, 11, 00 does the same with direction -1. The direction is
    [2 - state] of the third sample. *)
Theorem full_period_round_trip e g0 g1 g2 g3 s d :
  armed e = false -> access_mutex e = false -> report_ok e = true ->
  rotary_encoder_get_state g0 = 0 ->
  rotary_encoder_get_state g1 = 2 ->
  rotary_encoder_get_state g2 = s ->
  rotary_encoder_get_state g3 = 0 ->
  (s = 1 /\ d = 1) \/ (s = 3 /\ d = -1) ->
  d = 2 - s /\
  deliver encoder_irq [g0] e = Returned tt e /\
  deliver encoder_irq [g0; g1] e = Returned tt (set_armed true e) /\
  deliver encoder_irq [g0; g1; g2] e =
    Returned tt (set_dir d (set_armed true e)) /\
  input (set_dir d (set_armed true e)) = input e /\
  deliver encoder_irq [g0; g1; g2; g3] e =
    Returned tt (after_report (set_dir d e)) /\
  input (after_report (set_dir d e)) = input e ++ reported (set_dir d e) /\
  reports (input (after_report (set_dir d e))) = S (reports (input e)) /\
  (relative_axis e = true ->
   reported (set_dir d e) = [input_report_rel (axis e) d; input_sync]).
Proof.
  intros Ha Hm Hok H0 H1 H2 H3 Hsd.
  assert (Hd : d = 2 - s) by lia.
  assert (Hs : rotary_encoder_get_state g2 = 1 \/
               rotary_encoder_get_state g2 = 3) by lia.
  subst s. subst d.
  assert (S1 : run_handler encoder_irq g0 e = Returned tt e)
    by (apply irq_rest_unarmed; assumption).
  assert (S2 : run_handler encoder_irq g1 e = Returned tt (set_armed true e))
    by (apply irq_midpoint; assumption).
  repeat split.
  - rewrite (deliver_cons _ _ _ _ _ S1). reflexivity.
  - rewrite (deliver_cons _ _ _ _ _ S1), (deliver_cons _ _ _ _ _ S2).
    reflexivity.
  - apply irq_latches; assumption.
  - apply irq_round_trip; assumption.
  - rewrite reports_after_report. reflexivity.
  - intros Hrel. unfold reported. cbn [relative_axis set_dir axis dir].
    enc e. reflexivity.
Qed.

Lemma full_period_round_trip_witness :
  deliver encoder_irq [[0; 0]; [1; 1]; [0; 1]; [0; 0]] relative_encoder =
    Returned tt (after_report (set_dir 1 relative_encoder)) /\
  deliver encoder_irq [[0; 0]; [1; 1]; [1; 0]; [0; 0]] relative_encoder =
    Returned tt (after_report (set_dir (-1) relative_encoder)).
Proof.
  split.
  - apply (full_period_round_trip relative_encoder
             [0; 0] [1; 1] [0; 1] [0; 0] 1 1); try reflexivity.
    left. split; reflexivity.
  - apply (full_period_round_trip relative_encoder
             [0; 0] [1; 1] [1; 0] [0; 0] 3 (-1)); try reflexivity.
    right. split; reflexivity.
Defined.

(** * The reference state [last_stable] *)

Lemma app_cons_neq {A} (l r : list A) (a : A) : l ++ a :: r <> l.
Proof.
  intros H. apply (f_equal (@length A)) in H.
  rewrite length_app in H. cbn in H. lia.
Qed.

Lemma after_report_input_neq e : input (after_report e) <> input e.
Proof. unfold after_report, reported. cbn [input set_input]. apply app_cons_neq. Qed.

Lemma half_period_reference e g :
  let e' := state_of (rotary_encoder_half_period_irq g e) in
  (input e' = input e -> last_stable e' = last_stable e) /\
  (input e' <> input e -> last_stable e' = rotary_encoder_get_state g).
Proof.
  destruct (access_mutex e) eqn:Hm.
  { rewrite (held_blocks half_period_irq g e Hm
              : rotary_encoder_half_period_irq g e = Blocked e).
    cbn. split; congruence. }
  destruct (Z.eq_dec (Z.land (rotary_encoder_get_state g) 1) 0) as [Hev | Hodd].
  - destruct (Z.eq_dec (rotary_encoder_get_state g) (last_stable e)) as [Hs | Hs].
    + rewrite half_even_same by assumption. cbn. split; congruence.
    + destruct (report_ok e) eqn:Hok.
      * rewrite half_even_commit by assumption. cbn [state_of].
        split; [|enc e; reflexivity].
        intros H. exfalso. revert H.
        replace (input (set_last_stable (rotary_encoder_get_state g)
                          (after_report e)))
          with (input (after_report e)) by reflexivity.
        apply after_report_input_neq.
      * rewrite half_even_faults by assumption. cbn [state_of].
        split; [enc e; reflexivity|]. intros H. exfalso. apply H.
        enc e. reflexivity.
  - rewrite half_odd by assumption. cbn [state_of].
    split; [enc e; reflexivity|]. intros H. exfalso. apply H.
    enc e. reflexivity.
Qed.

Lemma poll_reference e g :
  let e' := state_of (rotary_encoder_poll_gpios g e) in
  (input e' = input e -> last_stable e' = last_stable e) /\
  (input e' <> input e -> last_stable e' = rotary_encoder_get_gpios_state g).
Proof.
  rewrite poll_gpios_step. cbn [state_of].
  destruct (rotary_encoder_get_gpios_state g =? last_stable e).
  - split; congruence.
  - split; [|enc e; reflexivity].
    intros H. exfalso. revert H. cbn [input set_last_stable set_input].
    apply app_cons_neq.
Qed.

Lemma absolute_irq_reference e g :
  let e' := state_of (rotary_absolute_encoder_irq g e) in
  (input e' = input e -> last_stable e' = last_stable e) /\
  (input e' <> input e -> last_stable e' = rotary_encoder_get_gpios_state g).
Proof.
  destruct (access_mutex e) eqn:Hm.
  { rewrite (held_blocks absolute_encoder_irq g e Hm
              : rotary_absolute_encoder_irq g e = Blocked e).
    cbn. split; congruence. }
  rewrite absolute_irq_step by assumption. cbn [state_of].
  destruct (rotary_encoder_get_gpios_state g =? last_stable e).
  - split; [enc e; reflexivity|]. intros H. exfalso. apply H.
    enc e. reflexivity.
  - split; [|enc e; reflexivity].
    intros H. exfalso. revert H.
    cbn [input set_last_stable set_input set_access_mutex].
    apply app_cons_neq.
Qed.

Lemma not_adjacent_quarter_tests ls s :
  0 <= s < 4 -> ~ adjacent ls s ->
  (u32 (ls + 1) mod 4 =? s) = false /\ (ls =? u32 (s + 1) mod 4) = false.
Proof.
  unfold adjacent, u32. change (2 ^ 32) with 4294967296. intros Hs Hn.
  split; apply Z.eqb_neq; intros H; apply Hn;
    Z.to_euclidean_division_equations; lia.
Qed.

(** C3, on the code: in the half-period handler and in the absolute change
    detection (interrupt handler and poll callback) a sample that reports
    nothing leaves [last_stable] alone and a sample that reports sets it to
    the sampled state; the quarter-period handler sets [last_stable] to the
    sampled state on every invocation, also when the sample is not adjacent
    and nothing is reported. *)
Theorem last_stable_reference e g :
  ((input (state_of (rotary_encoder_half_period_irq g e)) = input e ->
    last_stable (state_of (rotary_encoder_half_period_irq g e)) =
    last_stable e) /\
   (input (state_of (rotary_encoder_half_period_irq g e)) <> input e ->
    last_stable (state_of (rotary_encoder_half_period_irq g e)) =
    rotary_encoder_get_state g)) /\
  ((input (state_of (rotary_absolute_encoder_irq g e)) = input e ->
    last_stable (state_of (rotary_absolute_encoder_irq g e)) =
    last_stable e) /\
   (input (state_of (rotary_absolute_encoder_irq g e)) <> input e ->
    last_stable (state_of (rotary_absolute_encoder_irq g e)) =
    rotary_encoder_get_gpios_state g)) /\
  ((input (state_of (rotary_encoder_poll_gpios g e)) = input e ->
    last_stable (state_of (rotary_encoder_poll_gpios g e)) =
    last_stable e) /\
   (input (state_of (rotary_encoder_poll_gpios g e)) <> input e ->
    last_stable (state_of (rotary_encoder_poll_gpios g e)) =
    rotary_encoder_get_gpios_state g)) /\
  (access_mutex e = false -> report_ok e = true ->
   exists e',
     rotary_encoder_quarter_period_irq g e = Returned tt e' /\
     last_stable e' = rotary_encoder_get_state g /\
     (~ adjacent (last_stable e) (rotary_encoder_get_state g) ->
      input e' = input e)).
Proof.
  split; [apply half_period_reference|].
  split; [apply absolute_irq_reference|].
  split; [apply poll_reference|].
  intros Hm Hok. eexists. split; [apply quarter_step; assumption|].
  split; [reflexivity|].
  intros Hn.
  destruct (not_adjacent_quarter_tests _ _ (get_state_range g) Hn) as [H1 H2].
  rewrite H1, H2. reflexivity.
Qed.

Lemma last_stable_reference_witness :
  exists e',
    rotary_encoder_quarter_period_irq [1; 1] relative_encoder =
      Returned tt e' /\
    last_stable e' = rotary_encoder_get_state [1; 1] /\
    (~ adjacent (last_stable relative_encoder)
         (rotary_encoder_get_state [1; 1]) ->
     input e' = input relative_encoder).
Proof.
  apply (last_stable_reference relative_encoder [1; 1]); reflexivity.
Defined.

(** C3 as written fails for the quarter-period handler: from reference
    state 0 the sample 2 reports nothing and still moves [last_stable]. *)
Lemma quarter_moves_reference_silently :
  returns (rotary_encoder_quarter_period_irq [1; 1] relative_encoder) = true /\
  rotary_encoder_get_state [1; 1] = 2 /\
  input (state_of (rotary_encoder_quarter_period_irq [1; 1] relative_encoder))
    = input relative_encoder /\
  last_stable relative_encoder = 0 /\
  last_stable
    (state_of (rotary_encoder_quarter_period_irq [1; 1] relative_encoder)) = 2.
Proof. repeat split. Qed.

(** * The mutex *)

(** Sibling handlers: each quadrature handler returns with the mutex
    released. *)
Lemma quadrature_irq_unlocks h g e :
  h <> absolute_encoder_irq ->
  access_mutex e = false -> report_ok e = true ->
  exists e', run_handler h g e = Returned tt e' /\ access_mutex e' = false.
Proof.
  intros Hh Hm Hok. destruct h; [| | |congruence]; cbn [run_handler].
  - destruct (get_state_cases g) as [H | [H | [H | H]]].
    + destruct (armed e) eqn:Ha.
      * rewrite irq_rest_armed by assumption. eexists. split; [reflexivity|].
        enc e. unfold after_report. cbn. destruct rel; reflexivity.
      * rewrite irq_rest_unarmed by assumption. eauto.
    + rewrite irq_transition by auto. eexists. split; [reflexivity|].
      enc e. destruct arm; reflexivity.
    + rewrite irq_midpoint by assumption. eexists. split; [reflexivity|].
      enc e. reflexivity.
    + rewrite irq_transition by auto. eexists. split; [reflexivity|].
      enc e. destruct arm; reflexivity.
  - destruct (Z.eq_dec (Z.land (rotary_encoder_get_state g) 1) 0) as [Hev | Hodd].
    + destruct (Z.eq_dec (rotary_encoder_get_state g) (last_stable e)) as [Hs | Hs].
      * rewrite half_even_same by assumption. eauto.
      * rewrite half_even_commit by assumption. eexists. split; [reflexivity|].
        enc e. unfold after_report. cbn. destruct rel; reflexivity.
    + rewrite half_odd by assumption. eexists. split; [reflexivity|].
      enc e. reflexivity.
  - rewrite quarter_step by assumption. eexists. split; [reflexivity|].
    enc e. unfold after_report. cbn.
    destruct (_ =? _); [|destruct (_ =? _)]; cbn; destruct rel; reflexivity.
Qed.

(** C4, where the code departs from it: the absolute handler never
    returns and leaves the mutex held. Entered with the mutex free it runs
    its change detection, then blocks on its own second [mutex_lock]. *)
Theorem absolute_irq_never_unlocks e g :
  returns (rotary_absolute_encoder_irq g e) = false /\
  access_mutex (state_of (rotary_absolute_encoder_irq g e)) = true.
Proof.
  destruct (access_mutex e) eqn:Hm.
  - rewrite (held_blocks absolute_encoder_irq g e Hm
             : rotary_absolute_encoder_irq g e = Blocked e).
    cbn. auto.
  - rewrite absolute_irq_step by assumption. cbn. auto.
Qed.

(** * Probe: line count and handler selection *)

Lemma probe_irqs_requested pdev e :
  absolute_encoder e = false ->
  forall n i,
    (forall j, (i <= j < i + n)%nat -> request_threaded_irq pdev j = 0) ->
    probe_irqs pdev e n i = Irq_requested.
Proof.
  intros Habs. induction n as [|n IH]; intros i Hreq; cbn [probe_irqs].
  - reflexivity.
  - rewrite Habs, andb_false_r, andb_false_r.
    rewrite (Hreq i) by lia. cbn.
    apply IH. intros j Hj. apply Hreq. lia.
Qed.

Lemma probe_irqs_acquired pdev e :
  allocate_polled_device pdev = true -> register_polled_device pdev = 0 ->
  forall n i,
    (forall j, (i <= j < i + n)%nat -> request_threaded_irq pdev j = 0) ->
    probe_irqs pdev e n i = Irq_requested \/
    probe_irqs pdev e n i = Irq_polled.
Proof.
  intros Hpa Hpr. induction n as [|n IH]; intros i Hreq; cbn [probe_irqs].
  - left. reflexivity.
  - destruct (poll_mode_support pdev &&
              ((gpiod_to_irq pdev i <? 0) && absolute_encoder e)).
    + unfold rotary_encoder_register_poll_device. rewrite Hpa, Hpr. cbn.
      right. reflexivity.
    + rewrite (Hreq i) by lia. cbn.
      apply IH. intros j Hj. apply Hreq. lia.
Qed.

Lemma probe_irqs_steps_per_period pdev spp half e n i :
  probe_irqs (with_steps_per_period spp half pdev) e n i =
  probe_irqs pdev e n i.
Proof.
  revert i. induction n as [|n IH]; intros i; cbn [probe_irqs].
  - reflexivity.
  - rewrite IH. reflexivity.
Qed.

Lemma probe_past_handler pdev gpios e h :
  kzalloc_encoder pdev = true ->
  gpiod_get_array pdev = inr gpios ->
  (2 <= length gpios)%nat ->
  probe_handler pdev (probe_properties pdev) (probe_steps_per_period pdev)
    gpios = inr (e, h) ->
  acquires pdev (length gpios) ->
  exists polled,
    rotary_encoder_probe pdev = Probe_ok e h polled /\
    (absolute_encoder e = false -> polled = false).
Proof.
  intros Hk Hg Hlen Hh (Hki & Hreq & Hpa & Hpr & Ha & Hr).
  unfold rotary_encoder_probe. rewrite Hk, Hg. cbn [negb].
  destruct (Nat.ltb_spec (length gpios) 2) as [Hlt | _]; [lia|].
  rewrite Hh, Hki. cbn [negb].
  destruct (absolute_encoder e) eqn:Habs.
  - destruct (probe_irqs_acquired pdev e Hpa Hpr (length gpios) 0) as [-> | ->].
    + intros j Hj. apply Hreq. lia.
    + rewrite Ha, Hr. cbn. eexists. split; [reflexivity|discriminate].
    + eexists. split; [reflexivity|discriminate].
  - rewrite (probe_irqs_requested pdev e Habs).
    + rewrite Ha, Hr. cbn. eexists. split; reflexivity.
    + intros j Hj. apply Hreq. lia.
Qed.

Lemma probe_too_few_lines pdev gpios :
  kzalloc_encoder pdev = true ->
  gpiod_get_array pdev = inr gpios ->
  (length gpios < 2)%nat ->
  rotary_encoder_probe pdev = Probe_error (- EINVAL).
Proof.
  intros Hk Hg Hlen. unfold rotary_encoder_probe. rewrite Hk, Hg. cbn [negb].
  destruct (Nat.ltb_spec (length gpios) 2) as [_ | Hge]; [reflexivity|lia].
Qed.

Lemma probe_absolute_accepted pdev gpios :
  kzalloc_encoder pdev = true ->
  gpiod_get_array pdev = inr gpios ->
  (2 <= length gpios)%nat ->
  prop_absolute_encoder pdev = true ->
  acquires pdev (length gpios) ->
  exists e polled,
    rotary_encoder_probe pdev = Probe_ok e absolute_encoder_irq polled /\
    absolute_encoder e = true.
Proof.
  intros Hk Hg Hlen Habs Hacq.
  destruct (probe_past_handler pdev gpios
              (set_absolute_encoder true (probe_properties pdev))
              absolute_encoder_irq Hk Hg Hlen) as [polled [Hp _]].
  - unfold probe_handler. rewrite Habs. reflexivity.
  - assumption.
  - exists (set_absolute_encoder true (probe_properties pdev)), polled.
    split; [assumption|reflexivity].
Qed.

(** C5, on the code: with fewer than two lines the probe fails with
    -EINVAL, whether the encoder is a quadrature or an absolute one; an
    absolute encoder with two or more lines is accepted when the
    acquisitions succeed. *)
Theorem probe_line_count pdev gpios :
  kzalloc_encoder pdev = true ->
  gpiod_get_array pdev = inr gpios ->
  ((length gpios < 2)%nat ->
   rotary_encoder_probe pdev = Probe_error (- EINVAL)) /\
  ((2 <= length gpios)%nat ->
   prop_absolute_encoder pdev = true ->
   acquires pdev (length gpios) ->
   exists e polled,
     rotary_encoder_probe pdev = Probe_ok e absolute_encoder_irq polled /\
     absolute_encoder e = true).
Proof.
  intros Hk Hg. split.
  - apply probe_too_few_lines; assumption.
  - intros Hlen Habs Hacq. apply (probe_absolute_accepted pdev gpios); assumption.
Qed.

Lemma example_device_acquires spp absenc gpios n :
  acquires (example_device spp absenc gpios) n.
Proof. repeat split. Qed.

Lemma probe_line_count_witness :
  rotary_encoder_probe (example_device None false [0]) =
    Probe_error (- EINVAL) /\
  rotary_encoder_probe (example_device None true [0]) =
    Probe_error (- EINVAL) /\
  exists e polled,
    rotary_encoder_probe (example_device None true [0; 1; 1]) =
      Probe_ok e absolute_encoder_irq polled /\
    absolute_encoder e = true.
Proof.
  split; [|split].
  - apply (probe_line_count (example_device None false [0]) [0]);
      [reflexivity | reflexivity | cbn; lia].
  - apply (probe_line_count (example_device None true [0]) [0]);
      [reflexivity | reflexivity | cbn; lia].
  - apply (probe_line_count (example_device None true [0; 1; 1]) [0; 1; 1]);
      [reflexivity | reflexivity | cbn; lia | reflexivity
      | apply example_device_acquires].
Defined.

(** C5 as written fails: an absolute encoder with a single line is
    rejected although every acquisition succeeds. *)
Lemma absolute_single_line_rejected :
  prop_absolute_encoder (example_device None true [1]) = true /\
  gpiod_get_array (example_device None true [1]) = inr [1] /\
  rotary_encoder_probe (example_device None true [1]) = Probe_error (-22).
Proof. repeat split. Qed.

(** C7: without 'absolute-encoder' the handler is chosen by
    [steps_per_period >> (ndescs - 2)]: 4 selects the quarter-period
    handler, 2 the half-period handler, 1 the full-period handler, and any
    other value fails the probe with -EINVAL; with 'absolute-encoder' the
    absolute handler is chosen and the probe does not depend on
    [steps_per_period]. *)
Theorem probe_mode_selection pdev gpios :
  kzalloc_encoder pdev = true ->
  gpiod_get_array pdev = inr gpios ->
  (2 <= length gpios < 34)%nat ->
  (prop_absolute_encoder pdev = false ->
   forall ratio,
     ratio = Z.shiftr (probe_steps_per_period pdev)
               (Z.of_nat (length gpios) - 2) ->
     (ratio = 4 -> acquires pdev (length gpios) ->
      exists e, rotary_encoder_probe pdev = Probe_ok e quarter_period_irq false) /\
     (ratio = 2 -> acquires pdev (length gpios) ->
      exists e, rotary_encoder_probe pdev = Probe_ok e half_period_irq false) /\
     (ratio = 1 -> acquires pdev (length gpios) ->
      exists e, rotary_encoder_probe pdev = Probe_ok e encoder_irq false) /\
     (ratio <> 4 -> ratio <> 2 -> ratio <> 1 ->
      rotary_encoder_probe pdev = Probe_error (- EINVAL))) /\
  (prop_absolute_encoder pdev = true ->
   (forall spp half,
      rotary_encoder_probe (with_steps_per_period spp half pdev) =
      rotary_encoder_probe pdev) /\
   (acquires pdev (length gpios) ->
    exists e polled,
      rotary_encoder_probe pdev = Probe_ok e absolute_encoder_irq polled)).
Proof.
  intros Hk Hg [Hlen _]. split.
  - intros Habs ratio Hratio.
    assert (Hsel : forall e h,
               probe_handler pdev (probe_properties pdev)
                 (probe_steps_per_period pdev) gpios = inr (e, h) ->
               absolute_encoder e = false ->
               acquires pdev (length gpios) ->
               exists e', rotary_encoder_probe pdev = Probe_ok e' h false).
    { intros e h Hh He Hacq.
      destruct (probe_past_handler pdev gpios e h Hk Hg Hlen Hh Hacq)
        as [polled [Hp Hpolled]].
      rewrite (Hpolled He) in Hp. eauto. }
    assert (Hpick : forall v,
               ratio = v ->
               probe_handler pdev (probe_properties pdev)
                 (probe_steps_per_period pdev) gpios =
               let e := set_absolute_encoder false (probe_properties pdev) in
               if v =? 4 then
                 inr (set_last_stable (rotary_encoder_get_state gpios) e,
                      quarter_period_irq)
               else if v =? 2 then
                 inr (set_last_stable (rotary_encoder_get_state gpios) e,
                      half_period_irq)
               else if v =? 1 then inr (e, encoder_irq)
               else inl (- EINVAL)).
    { intros v Hv. unfold probe_handler. rewrite Habs.
      cbn [absolute_encoder set_absolute_encoder].
      rewrite <- Hratio, Hv. reflexivity. }
    split; [|split; [|split]].
    + intros Hr Hacq.
      eapply Hsel; [rewrite (Hpick 4 Hr); reflexivity | reflexivity | assumption].
    + intros Hr Hacq.
      eapply Hsel; [rewrite (Hpick 2 Hr); reflexivity | reflexivity | assumption].
    + intros Hr Hacq.
      eapply Hsel; [rewrite (Hpick 1 Hr); reflexivity | reflexivity | assumption].
    + intros H4 H2 H1. unfold rotary_encoder_probe. rewrite Hk, Hg. cbn [negb].
      destruct (Nat.ltb_spec (length gpios) 2) as [Hlt | _]; [lia|].
      unfold probe_handler. rewrite Habs. cbn [absolute_encoder set_absolute_encoder].
      rewrite <- Hratio.
      apply Z.eqb_neq in H4, H2, H1. rewrite H4, H2, H1. reflexivity.
  - intros Habs. split.
    + intros spp half. unfold rotary_encoder_probe, probe_handler.
      cbn [kzalloc_encoder gpiod_get_array with_steps_per_period
           prop_absolute_encoder kzalloc_irq allocate_device register_device].
      rewrite Habs, Hk, Hg. cbn [negb absolute_encoder set_absolute_encoder].
      rewrite probe_irqs_steps_per_period. reflexivity.
    + intros Hacq.
      destruct (probe_absolute_accepted pdev gpios Hk Hg Hlen Habs Hacq)
        as [e [polled [Hp _]]]. eauto.
Qed.

Lemma probe_mode_selection_witness :
  (exists e, rotary_encoder_probe (example_device (Some 4) false [0; 0]) =
             Probe_ok e quarter_period_irq false) /\
  (exists e, rotary_encoder_probe (example_device (Some 2) false [0; 0]) =
             Probe_ok e half_period_irq false) /\
  (exists e, rotary_encoder_probe (example_device (Some 1) false [0; 0]) =
             Probe_ok e encoder_irq false) /\
  (exists e, rotary_encoder_probe (example_device (Some 8) false [0; 0; 0]) =
             Probe_ok e quarter_period_irq false) /\
  rotary_encoder_probe (example_device (Some 3) false [0; 0]) =
    Probe_error (- EINVAL) /\
  (forall spp half,
     rotary_encoder_probe
       (with_steps_per_period spp half (example_device (Some 3) true [0; 0])) =
     rotary_encoder_probe (example_device (Some 3) true [0; 0])).
Proof.
  assert (H2 : (2 <= length [0; 0] < 34)%nat) by (cbn; lia).
  assert (H3 : (2 <= length [0; 0; 0] < 34)%nat) by (cbn; lia).
  split; [|split; [|split; [|split; [|split]]]].
  - apply (proj1 (probe_mode_selection (example_device (Some 4) false [0; 0])
                    [0; 0] eq_refl eq_refl H2) eq_refl 4 eq_refl);
      [reflexivity | apply example_device_acquires].
  - apply (proj1 (probe_mode_selection (example_device (Some 2) false [0; 0])
                    [0; 0] eq_refl eq_refl H2) eq_refl 2 eq_refl);
      [reflexivity | apply example_device_acquires].
  - apply (proj1 (probe_mode_selection (example_device (Some 1) false [0; 0])
                    [0; 0] eq_refl eq_refl H2) eq_refl 1 eq_refl);
      [reflexivity | apply example_device_acquires].
  - apply (proj1 (probe_mode_selection
                    (example_device (Some 8) false [0; 0; 0])
                    [0; 0; 0] eq_refl eq_refl H3) eq_refl 4 eq_refl);
      [reflexivity | apply example_device_acquires].
  - apply (proj1 (probe_mode_selection (example_device (Some 3) false [0; 0])
                    [0; 0] eq_refl eq_refl H2) eq_refl 3 eq_refl); lia.
  - apply (proj2 (probe_mode_selection (example_device (Some 3) true [0; 0])
                    [0; 0] eq_refl eq_refl H2) eq_refl).
Defined.

(** * Event reporter: position bookkeeping *)

Lemma report_event_absolute e :
  relative_axis e = false -> (rollover e = true -> steps e <> 0) ->
  rotary_encoder_report_event e =
  Returned tt
    (set_input
       (input e ++ [input_report_abs (axis e) (s32 (report_pos e)); input_sync])
       (set_pos (report_pos e) e)).
Proof.
  intros Hrel Hst.
  rewrite report_event_returns.
  - unfold after_report, reported. rewrite Hrel. reflexivity.
  - unfold report_ok. rewrite Hrel. cbn.
    destruct (rollover e); [|reflexivity]. cbn.
    apply negb_true_iff, Z.eqb_neq. auto.
Qed.

Lemma report_pos_spec e :
  dir e = -1 \/ dir e = 1 ->
  report_pos e = spec_position (steps e) (rollover e) (pos e) (dir e).
Proof.
  unfold report_pos, report_turn, spec_position.
  intros [Hd | Hd]; rewrite Hd; cbn [Z.ltb Z.eqb Z.compare Pos.eqb].
  - destruct (rollover e); cbn [negb];
      [destruct (u32 (pos e + steps e) =? 0) | destruct (pos e =? 0)];
      reflexivity.
  - destruct (rollover e); cbn [orb]; [reflexivity|].
    destruct (pos e <? steps e); reflexivity.
Qed.

(** Without wrap-around the specified update is the familiar one: a step
    on the ring of [steps] positions when rolling over, a step clamped to
    [0, steps] otherwise. *)
Lemma spec_position_closed_form (n p : Z) :
  0 < n -> 0 <= p <= n -> p + n < 2 ^ 32 ->
  spec_position n true p (-1) = (p + n - 1) mod n /\
  spec_position n true p 1 = (p + 1) mod n /\
  spec_position n false p (-1) = Z.max 0 (p - 1) /\
  spec_position n false p 1 = Z.min n (p + 1).
Proof.
  intros Hn Hp Hw. unfold spec_position, u32.
  cbn [Z.eqb Pos.eqb].
  rewrite (Z.mod_small (p + n)), (Z.mod_small (p + 1)) by lia.
  repeat split.
  - destruct (Z.eqb_spec (p + n) 0) as [Hz | _]; [lia|].
    rewrite (Z.mod_small (p + n - 1)) by lia. reflexivity.
  - destruct (Z.eqb_spec p 0) as [-> | Hz]; [reflexivity|].
    rewrite Z.mod_small by lia. lia.
  - destruct (Z.ltb_spec p n); lia.
Qed.

(** C6: on an absolute axis the reporter commits the position the
    specification describes (direction -1: add [steps] first if rolling
    over, then decrement if nonzero; direction +1: increment iff rolling
    over or below [steps]; finally reduce modulo [steps] if rolling over),
    and reports it. With [steps = 4]: rolling over, 0 goes to 3 on -1 and
    3 goes to 0 on +1; clamping, 4 stays 4 on +1 and 0 stays 0 on -1. *)
Theorem report_event_position e :
  (relative_axis e = false ->
   dir e = -1 \/ dir e = 1 ->
   (rollover e = true -> steps e <> 0) ->
   exists e',
     rotary_encoder_report_event e = Returned tt e' /\
     pos e' = spec_position (steps e) (rollover e) (pos e) (dir e) /\
     input e' =
     input e ++ [input_report_abs (axis e) (s32 (pos e')); input_sync]) /\
  (relative_axis e = false -> steps e = 4 ->
   (rollover e = true -> pos e = 0 -> dir e = -1 ->
    pos (state_of (rotary_encoder_report_event e)) = 3) /\
   (rollover e = true -> pos e = 3 -> dir e = 1 ->
    pos (state_of (rotary_encoder_report_event e)) = 0) /\
   (rollover e = false -> pos e = 4 -> dir e = 1 ->
    pos (state_of (rotary_encoder_report_event e)) = 4) /\
   (rollover e = false -> pos e = 0 -> dir e = -1 ->
    pos (state_of (rotary_encoder_report_event e)) = 0)).
Proof.
  split.
  - intros Hrel Hd Hst. eexists. split; [apply report_event_absolute; assumption|].
    cbn [pos input set_input set_pos]. split; [|reflexivity].
    apply report_pos_spec. assumption.
  - intros Hrel Hn.
    assert (Hst : rollover e = true -> steps e <> 0) by (intros _; lia).
    rewrite (report_event_absolute e Hrel Hst). cbn [state_of pos set_input set_pos].
    unfold report_pos, report_turn.
    repeat split; intros Hroll Hp Hd; rewrite Hroll, Hp, Hd, Hn; reflexivity.
Qed.

Lemma report_event_position_witness :
  pos (state_of (rotary_encoder_report_event (abs_axis_encoder 4 true 0 (-1))))
    = 3 /\
  pos (state_of (rotary_encoder_report_event (abs_axis_encoder 4 true 3 1)))
    = 0 /\
  pos (state_of (rotary_encoder_report_event (abs_axis_encoder 4 false 4 1)))
    = 4 /\
  pos (state_of (rotary_encoder_report_event (abs_axis_encoder 4 false 0 (-1))))
    = 0 /\
  exists e',
    rotary_encoder_report_event (abs_axis_encoder 24 true 0 (-1)) =
      Returned tt e' /\
    pos e' = spec_position 24 true 0 (-1) /\
    input e' = [input_report_abs 0 (s32 (pos e')); input_sync].
Proof.
  split; [|split; [|split; [|split]]].
  - apply (proj1 (proj2 (report_event_position
                           (abs_axis_encoder 4 true 0 (-1))) eq_refl eq_refl));
      reflexivity.
  - apply (proj1 (proj2 (proj2 (report_event_position
                                  (abs_axis_encoder 4 true 3 1))
                           eq_refl eq_refl)));
      reflexivity.
  - apply (proj1 (proj2 (proj2 (proj2 (report_event_position
                                         (abs_axis_encoder 4 false 4 1))
                                  eq_refl eq_refl))));
      reflexivity.
  - apply (proj2 (proj2 (proj2 (proj2 (report_event_position
                                         (abs_axis_encoder 4 false 0 (-1)))
                                  eq_refl eq_refl))));
      reflexivity.
  - apply (proj1 (report_event_position (abs_axis_encoder 24 true 0 (-1))));
      [reflexivity | left; reflexivity | cbn; lia].
Defined.

(** C9: on an absolute axis with rollover the reporter reduces the
    position modulo [steps] without testing [steps]: with [steps > 0] it
    returns and the committed position lies in [0, steps); with
    [steps = 0] it divides by zero. *)
Theorem report_event_rollover_steps e :
  relative_axis e = false -> rollover e = true ->
  (0 < steps e ->
   exists e',
     rotary_encoder_report_event e = Returned tt e' /\
     pos e' = report_turn e mod steps e /\
     0 <= pos e' < steps e) /\
  (steps e = 0 -> rotary_encoder_report_event e = DivByZero e).
Proof.
  intros Hrel Hroll. split.
  - intros Hpos. eexists. split.
    + apply report_event_absolute; [assumption|intros _; lia].
    + cbn [pos set_input set_pos]. unfold report_pos. rewrite Hroll.
      split; [reflexivity|]. apply Z.mod_pos_bound. assumption.
  - intros Hz. apply report_event_faults. unfold report_ok.
    rewrite Hrel, Hroll, Hz. reflexivity.
Qed.

Lemma report_event_rollover_steps_witness :
  (exists e',
     rotary_encoder_report_event (abs_axis_encoder 4 true 0 (-1)) =
       Returned tt e' /\
     pos e' = report_turn (abs_axis_encoder 4 true 0 (-1)) mod 4 /\
     0 <= pos e' < 4) /\
  rotary_encoder_report_event (abs_axis_encoder 0 true 0 1) =
    DivByZero (abs_axis_encoder 0 true 0 1).
Proof.
  split.
  - apply (proj1 (report_event_rollover_steps (abs_axis_encoder 4 true 0 (-1))
                    eq_refl eq_refl)). reflexivity.
  - apply (proj2 (report_event_rollover_steps (abs_axis_encoder 0 true 0 1)
                    eq_refl eq_refl)). reflexivity.
Defined.

(** * Repeated samples *)

Lemma returned_free h g e e1 :
  run_handler h g e = Returned tt e1 ->
  access_mutex e = false /\ access_mutex e1 = false.
Proof.
  destruct (access_mutex e) eqn:Hm.
  { rewrite held_blocks by assumption. discriminate. }
  revert Hm.
  destruct h; cbn [run_handler]; enc e; intros ->; run;
    abstract_samples g; cbn; split_ifs; intros H; try discriminate;
    inversion H; subst; split; reflexivity.
Qed.

Lemma after_report_mutex e : access_mutex (after_report e) = access_mutex e.
Proof. enc e. unfold after_report. cbn. destruct rel; reflexivity. Qed.

Lemma irq_twice e g1 g2 e1 :
  rotary_encoder_get_state g1 = rotary_encoder_get_state g2 ->
  rotary_encoder_irq g1 e = Returned tt e1 ->
  rotary_encoder_irq g2 e1 = Returned tt e1.
Proof.
  intros Hs H.
  destruct (returned_free encoder_irq g1 e e1 H) as [Hm Hm1].
  destruct (get_state_cases g1) as [H0 | [H0 | [H0 | H0]]].
  - apply irq_rest_unarmed; [assumption | congruence |].
    destruct (armed e) eqn:Ha.
    + destruct (report_ok e) eqn:Hok.
      * rewrite irq_rest_armed in H by assumption. inversion H. reflexivity.
      * rewrite irq_rest_faults in H by assumption. discriminate.
    + rewrite irq_rest_unarmed in H by assumption. congruence.
  - rewrite irq_transition in H by auto.
    rewrite irq_transition by (auto; rewrite <- Hs; auto).
    rewrite <- Hs. inversion H. enc e. destruct arm; reflexivity.
  - rewrite irq_midpoint in H by assumption.
    rewrite irq_midpoint by congruence.
    inversion H. enc e. reflexivity.
  - rewrite irq_transition in H by auto.
    rewrite irq_transition by (auto; rewrite <- Hs; auto).
    rewrite <- Hs. inversion H. enc e. destruct arm; reflexivity.
Qed.

Lemma half_twice e g1 g2 e1 :
  rotary_encoder_get_state g1 = rotary_encoder_get_state g2 ->
  rotary_encoder_half_period_irq g1 e = Returned tt e1 ->
  rotary_encoder_half_period_irq g2 e1 = Returned tt e1.
Proof.
  intros Hs H.
  destruct (returned_free half_period_irq g1 e e1 H) as [Hm Hm1].
  destruct (Z.eq_dec (Z.land (rotary_encoder_get_state g1) 1) 0) as [Hev | Hodd].
  - destruct (Z.eq_dec (rotary_encoder_get_state g1) (last_stable e)) as [Hl | Hl].
    + rewrite half_even_same in H by assumption. inversion H. subst e1.
      apply half_even_same; congruence.
    + destruct (report_ok e) eqn:Hok.
      * rewrite half_even_commit in H by assumption. inversion H. subst e1.
        apply half_even_same; [assumption | congruence |].
        rewrite <- Hs. enc e. reflexivity.
      * rewrite half_even_faults in H by assumption. discriminate.
  - rewrite half_odd in H by assumption. inversion H.
    rewrite half_odd by congruence.
    rewrite <- Hs. enc e. reflexivity.
Qed.

Lemma quarter_not_self s :
  0 <= s < 4 ->
  (u32 (s + 1) mod 4 =? s) = false /\ (s =? u32 (s + 1) mod 4) = false.
Proof.
  intros Hs.
  assert (Hc : s = 0 \/ s = 1 \/ s = 2 \/ s = 3) by lia.
  destruct Hc as [-> | [-> | [-> | ->]]]; split; reflexivity.
Qed.

Lemma quarter_returned e g e1 :
  rotary_encoder_quarter_period_irq g e = Returned tt e1 ->
  last_stable e1 = rotary_encoder_get_state g.
Proof.
  destruct (access_mutex e) eqn:Hm.
  { rewrite (held_blocks quarter_period_irq g e Hm
              : rotary_encoder_quarter_period_irq g e = Blocked e).
    discriminate. }
  revert Hm. enc e. intros ->. run. abstract_samples g. cbn. split_ifs;
    intros H; try discriminate; inversion H; reflexivity.
Qed.

Lemma quarter_twice e g1 g2 e1 :
  rotary_encoder_get_state g1 = rotary_encoder_get_state g2 ->
  rotary_encoder_quarter_period_irq g1 e = Returned tt e1 ->
  rotary_encoder_quarter_period_irq g2 e1 = Returned tt e1.
Proof.
  intros Hs H.
  destruct (returned_free quarter_period_irq g1 e e1 H) as [Hm Hm1].
  pose proof (quarter_returned e g1 e1 H) as Hl.
  destruct (quarter_not_self _ (get_state_range g2)) as [T1 T2].
  rewrite quarter_skip; try assumption; try (rewrite Hl, Hs; assumption).
  rewrite <- Hs, <- Hl. enc e1. reflexivity.
Qed.

Lemma stuck_holds h g e :
  returns (run_handler h g e) = false ->
  access_mutex (state_of (run_handler h g e)) = true.
Proof.
  destruct h; cbn [run_handler]; enc e; destruct mtx; try reflexivity; run;
    abstract_samples g;
    cbn; split_ifs; intros; try discriminate; reflexivity.
Qed.

Lemma handler_twice h e g1 g2 e1 :
  sample h g1 = sample h g2 ->
  run_handler h g1 e = Returned tt e1 ->
  run_handler h g2 e1 = Returned tt e1.
Proof.
  destruct h; cbn [run_handler sample]; intros Hs H.
  - eapply irq_twice; eassumption.
  - eapply half_twice; eassumption.
  - eapply quarter_twice; eassumption.
  - exfalso.
    destruct (returned_free absolute_encoder_irq g1 e e1 H) as [Hm _].
    cbn [run_handler] in H. rewrite absolute_irq_step in H by assumption.
    discriminate.
Qed.

Lemma poll_twice e g1 g2 :
  rotary_encoder_get_gpios_state g1 = rotary_encoder_get_gpios_state g2 ->
  rotary_encoder_poll_gpios g2 (state_of (rotary_encoder_poll_gpios g1 e)) =
  Returned tt (state_of (rotary_encoder_poll_gpios g1 e)).
Proof.
  intros Hs. rewrite (poll_gpios_step e g1). cbn [state_of].
  rewrite poll_gpios_step, <- Hs.
  destruct (rotary_encoder_get_gpios_state g1 =? last_stable e) eqn:Hl.
  - rewrite Hl. reflexivity.
  - cbn [last_stable set_last_stable]. rewrite Z.eqb_refl. reflexivity.
Qed.

(** C8: in every decode mode and from every encoder state, a sample that
    repeats the one just delivered reports nothing: the second run of the
    handler leaves the input device as the first run left it. When the
    first run returned, the second returns too and changes nothing at all;
    the poll callback behaves the same. *)
Theorem repeated_sample_reports_nothing h e g1 g2 :
  sample h g1 = sample h g2 ->
  input (state_of (run_handler h g2 (state_of (run_handler h g1 e)))) =
  input (state_of (run_handler h g1 e)) /\
  (forall e1,
     run_handler h g1 e = Returned tt e1 ->
     run_handler h g2 e1 = Returned tt e1) /\
  (h = absolute_encoder_irq ->
   rotary_encoder_poll_gpios g2 (state_of (rotary_encoder_poll_gpios g1 e)) =
   Returned tt (state_of (rotary_encoder_poll_gpios g1 e))).
Proof.
  intros Hs. split; [|split].
  - destruct (run_handler h g1 e) as [[] e1 | e1 | e1] eqn:H1.
    + cbn [state_of]. rewrite (handler_twice h e g1 g2 e1 Hs H1). reflexivity.
    + pose proof (stuck_holds h g1 e) as Hheld. rewrite H1 in Hheld.
      cbn [state_of returns] in *.
      rewrite held_blocks by auto. reflexivity.
    + pose proof (stuck_holds h g1 e) as Hheld. rewrite H1 in Hheld.
      cbn [state_of returns] in *.
      rewrite held_blocks by auto. reflexivity.
  - intros e1. apply handler_twice. assumption.
  - intros ->. apply poll_twice. assumption.
Qed.

Lemma repeated_sample_reports_nothing_witness :
  rotary_encoder_irq [0; 0] turned_ccw = Returned tt turned_ccw /\
  input
    (state_of
       (run_handler quarter_period_irq [0; 1]
          (state_of (run_handler quarter_period_irq [0; 1] relative_encoder)))) =
  input (state_of (run_handler quarter_period_irq [0; 1] relative_encoder)).
Proof.
  split.
  - assert (H : run_handler encoder_irq [0; 0]
                  (set_dir (-1) (set_armed true relative_encoder)) =
                Returned tt turned_ccw) by (vm_compute; reflexivity).
    exact (proj1 (proj2 (repeated_sample_reports_nothing encoder_irq
                           (set_dir (-1) (set_armed true relative_encoder))
                           [0; 0] [0; 0] eq_refl)) turned_ccw H).
  - exact (proj1 (repeated_sample_reports_nothing quarter_period_irq
                    relative_encoder [0; 1] [0; 1] eq_refl)).
Defined.

(** * Half-period direction *)

Lemma odd_sample_parity g :
  Z.land (rotary_encoder_get_state g) 1 <> 0 ->
  rotary_encoder_get_state g mod 2 = 1.
Proof.
  rewrite land_1_parity. intros H.
  pose proof (Z.mod_pos_bound (rotary_encoder_get_state g) 2). lia.
Qed.

Lemma even_sample_parity g :
  Z.land (rotary_encoder_get_state g) 1 = 0 ->
  rotary_encoder_get_state g mod 2 = 0.
Proof. rewrite land_1_parity. auto. Qed.

(** Between two odd values the half-period formula yields 0 or 2. *)
Lemma half_dir_odd_odd ls s :
  ls mod 2 = 1 -> s mod 2 = 1 ->
  (ls - s + 1) mod 4 - 1 = 0 \/ (ls - s + 1) mod 4 - 1 = 2.
Proof. intros Hl Hs. Z.to_euclidean_division_equations. lia. Qed.

Lemma not_adjacent_odd ls s :
  s mod 2 = 1 -> ~ adjacent ls s -> ls mod 2 = 1.
Proof.
  unfold adjacent. intros Hs Hn.
  assert (H : (ls - s) mod 4 <> 1 /\ (ls - s) mod 4 <> 3) by tauto.
  revert H. Z.to_euclidean_division_equations. lia.
Qed.

Lemma half_dir_range ls s : -1 <= (ls - s + 1) mod 4 - 1 <= 2.
Proof. pose proof (Z.mod_pos_bound (ls - s + 1) 4). lia. Qed.

(** Odd samples on an odd reference state: nothing is reported, the
    reference stays, the direction stays 0 or 2. *)
Lemma half_odd_run mids :
  Forall (fun m => Z.land (rotary_encoder_get_state m) 1 <> 0) mids ->
  forall e1,
    access_mutex e1 = false -> last_stable e1 mod 2 = 1 ->
    dir e1 = 0 \/ dir e1 = 2 ->
    exists d,
      deliver half_period_irq mids e1 = Returned tt (set_dir d e1) /\
      (d = 0 \/ d = 2).
Proof.
  induction 1 as [|m mids Hm _ IH]; intros e1 Hmtx Hls Hd.
  - exists (dir e1). split; [|assumption]. enc e1. reflexivity.
  - pose proof (half_dir_odd_odd _ _ Hls (odd_sample_parity m Hm)) as Hd'.
    destruct (IH (set_dir ((last_stable e1 - rotary_encoder_get_state m + 1)
                             mod 4 - 1) e1)) as [dv [Hrun Hd2]].
    + enc e1. reflexivity.
    + enc e1. assumption.
    + enc e1. assumption.
    + exists dv. split; [|assumption].
      rewrite (deliver_cons half_period_irq m mids e1 _
                 (half_odd e1 m Hmtx Hm)).
      rewrite Hrun. enc e1. reflexivity.
Qed.

(** C10: on an odd sample the half-period handler stores
    [((last_stable - state + 1) mod 4) - 1], a value between -1 and 2.
    When the reference state and the odd sample are not adjacent the
    stored value is 0 or 2, it stays 0 or 2 over further odd samples, and
    the next even sample commits an event with it. *)
Theorem half_period_direction e g :
  access_mutex e = false ->
  Z.land (rotary_encoder_get_state g) 1 <> 0 ->
  rotary_encoder_half_period_irq g e =
    Returned tt
      (set_dir ((last_stable e - rotary_encoder_get_state g + 1) mod 4 - 1) e)
  /\
  -1 <= (last_stable e - rotary_encoder_get_state g + 1) mod 4 - 1 <= 2 /\
  (~ adjacent (last_stable e) (rotary_encoder_get_state g) ->
   forall mids g',
     Forall (fun m => Z.land (rotary_encoder_get_state m) 1 <> 0) mids ->
     Z.land (rotary_encoder_get_state g') 1 = 0 ->
     report_ok e = true ->
     exists d,
       (d = 0 \/ d = 2) /\
       deliver half_period_irq (g :: mids) e = Returned tt (set_dir d e) /\
       rotary_encoder_half_period_irq g' (set_dir d e) =
         Returned tt
           (set_last_stable (rotary_encoder_get_state g')
              (after_report (set_dir d e))) /\
       (relative_axis e = true ->
        reported (set_dir d e) = [input_report_rel (axis e) d; input_sync])).
Proof.
  intros Hmtx Hodd. split; [apply half_odd; assumption|].
  split; [apply half_dir_range|].
  intros Hn mids g' Hmids Hev Hok.
  pose proof (odd_sample_parity g Hodd) as Hs.
  pose proof (not_adjacent_odd _ _ Hs Hn) as Hls.
  destruct (half_odd_run mids Hmids
              (set_dir ((last_stable e - rotary_encoder_get_state g + 1)
                          mod 4 - 1) e)) as [dv [Hrun Hd]].
  - enc e. reflexivity.
  - enc e. assumption.
  - cbn [dir set_dir]. apply half_dir_odd_odd; assumption.
  - exists dv. split; [assumption|]. split; [|split].
    + rewrite (deliver_cons half_period_irq g mids e _
                 (half_odd e g Hmtx Hodd)).
      rewrite Hrun. enc e. reflexivity.
    + apply half_even_commit.
      * enc e. reflexivity.
      * assumption.
      * pose proof (even_sample_parity g' Hev) as Hp.
        cbn [last_stable set_dir]. intros Heq. rewrite Heq in Hp. lia.
      * enc e. exact Hok.
    + intros Hrel. unfold reported. enc e. reflexivity.
Qed.

Lemma half_period_direction_witness :
  rotary_encoder_half_period_irq [0; 1] half_encoder_at_3 =
    Returned tt (set_dir 2 half_encoder_at_3) /\
  exists d,
    (d = 0 \/ d = 2) /\
    deliver half_period_irq [[0; 1]; [1; 0]] half_encoder_at_3 =
      Returned tt (set_dir d half_encoder_at_3) /\
    rotary_encoder_half_period_irq [1; 1] (set_dir d half_encoder_at_3) =
      Returned tt
        (set_last_stable (rotary_encoder_get_state [1; 1])
           (after_report (set_dir d half_encoder_at_3))) /\
    (relative_axis half_encoder_at_3 = true ->
     reported (set_dir d half_encoder_at_3) =
     [input_report_rel (axis half_encoder_at_3) d; input_sync]).
Proof.
  assert (Hodd : Z.land (rotary_encoder_get_state [0; 1]) 1 <> 0)
    by (vm_compute; discriminate).
  destruct (half_period_direction half_encoder_at_3 [0; 1] eq_refl Hodd)
    as [Hstep [_ Hnext]].
  split; [exact Hstep|].
  apply Hnext.
  - unfold adjacent. vm_compute. intros [H | H]; discriminate.
  - constructor; [vm_compute; discriminate|constructor].
  - reflexivity.
  - reflexivity.
Defined.

(** * Channel sampler: closed forms *)

Lemma lor_even_bit (k b : Z) :
  0 <= k -> b = 0 \/ b = 1 -> Z.lor (2 * k) b = 2 * k + b.
Proof.
  intros Hk [-> | ->].
  - rewrite Z.lor_0_r. lia.
  - destruct k as [|q|q]; [reflexivity|reflexivity|lia].
Qed.

Lemma shift_or_bit (r v : Z) :
  0 <= r < 2 ^ 32 -> v = 0 \/ v = 1 ->
  u32 (Z.lor (u32 (Z.shiftl r 1)) (u32 v)) = (2 * r) mod 2 ^ 32 + v.
Proof.
  intros Hr Hv. unfold u32.
  rewrite Z.shiftl_mul_pow2 by lia. change (2 ^ 1) with 2.
  rewrite (Z.mod_small v) by (change (2 ^ 32) with 4294967296; lia).
  assert (He : (r * 2) mod 2 ^ 32 = 2 * (r mod 2 ^ 31)).
  { change (2 ^ 32) with 4294967296. change (2 ^ 31) with 2147483648.
    Z.to_euclidean_division_equations. lia. }
  rewrite He, lor_even_bit; [|apply Z.mod_pos_bound; reflexivity|assumption].
  replace (2 * r) with (r * 2) by lia. rewrite He.
  apply Z.mod_small.
  pose proof (Z.mod_pos_bound r (2 ^ 31) eq_refl).
  change (2 ^ 32) with 4294967296. change (2 ^ 31) with 2147483648 in *. lia.
Qed.

Lemma level_sum_app (a b : list Z) :
  level_sum (a ++ b) = level_sum a + level_sum b.
Proof.
  unfold level_sum. induction a as [|x a IH]; cbn; [reflexivity|].
  rewrite IH. lia.
Qed.

Lemma boolean_levels_app (a b : list Z) :
  boolean_levels (a ++ b) <-> boolean_levels a /\ boolean_levels b.
Proof. unfold boolean_levels. apply Forall_app. Qed.

(** The decoded word after the loop: its two low bits are the parity of
    the lines but the last, and the parity of all lines. *)
Lemma get_state_fold (gpios : list Z) :
  boolean_levels gpios ->
  0 <= fold_left get_state_step gpios 0 < 2 ^ 32 /\
  fold_left get_state_step gpios 0 mod 4 =
  2 * (level_sum (removelast gpios) mod 2) + level_sum gpios mod 2.
Proof.
  induction gpios as [|x l IH] using rev_ind; intros Hb.
  - cbn. split; [lia|reflexivity].
  - apply boolean_levels_app in Hb. destruct Hb as [Hl Hx].
    inversion Hx as [|? ? Hx0 _]; subst.
    destruct (IH Hl) as [Hr Hm]. clear IH.
    rewrite fold_left_app, removelast_last, level_sum_app. cbn [fold_left].
    set (r := fold_left get_state_step l 0) in *.
    unfold get_state_step. rewrite land_1_parity.
    assert (Hpar : r mod 2 = level_sum l mod 2).
    { revert Hm. Z.to_euclidean_division_equations. lia. }
    assert (Hv : (if negb (r mod 2 =? 0) then lnot x else x) = 0 \/
                 (if negb (r mod 2 =? 0) then lnot x else x) = 1).
    { destruct (r mod 2 =? 0); cbn [negb]; [assumption|].
      unfold lnot. destruct (x =? 0); auto. }
    rewrite shift_or_bit by assumption.
    split.
    + pose proof (Z.mod_pos_bound (2 * r) (2 ^ 32) eq_refl).
      assert (He : (2 * r) mod 2 ^ 32 = 2 * (r mod 2 ^ 31)).
      { change (2 ^ 32) with 4294967296. change (2 ^ 31) with 2147483648.
        Z.to_euclidean_division_equations. lia. }
      change (2 ^ 32) with 4294967296 in *. lia.
    + unfold level_sum at 3. cbn [fold_right]. rewrite Z.add_0_r.
      destruct (Z.eqb_spec (r mod 2) 0) as [Hz | Hz]; cbn [negb].
      * revert Hpar Hz. change (2 ^ 32) with 4294967296.
        destruct Hx0 as [-> | ->]; Z.to_euclidean_division_equations; lia.
      * revert Hpar Hz. change (2 ^ 32) with 4294967296. unfold lnot.
        destruct Hx0 as [-> | ->]; cbn [Z.eqb];
          Z.to_euclidean_division_equations; lia.
Qed.

Lemma get_state_parity (gpios : list Z) :
  boolean_levels gpios ->
  rotary_encoder_get_state gpios =
  2 * (level_sum (removelast gpios) mod 2) + level_sum gpios mod 2.
Proof.
  intros Hb. unfold rotary_encoder_get_state.
  change 3 with (Z.ones 2). rewrite Z.land_ones by lia.
  apply (get_state_fold gpios Hb).
Qed.

(** X1: for lines that read 0 or 1, whatever their number, the decoded
    quadrature state has the parity of all lines as its low bit and the
    parity of all lines but the last as its high bit. *)
Theorem get_state_is_parity (gpios : list Z) :
  boolean_levels gpios ->
  rotary_encoder_get_state gpios =
  2 * (level_sum (removelast gpios) mod 2) + level_sum gpios mod 2.
Proof.
  intros Hb.
  destruct (get_state_fold gpios Hb) as [_ Hlow].
  unfold rotary_encoder_get_state.
  change 3 with (Z.ones 2). rewrite Z.land_ones by lia.
  exact Hlow.
Qed.

Lemma get_state_is_parity_witness :
  rotary_encoder_get_state [1; 0; 1; 1] =
  2 * (level_sum (removelast [1; 0; 1; 1]) mod 2) +
  level_sum [1; 0; 1; 1] mod 2.
Proof.
  apply (get_state_is_parity [1; 0; 1; 1]).
  repeat (apply Forall_cons; [lia|]). apply Forall_nil.
Defined.

Lemma boolean_flip (x : Z) : x = 0 \/ x = 1 -> 1 - x = 0 \/ 1 - x = 1.
Proof. lia. Qed.

(** X2: an edge on exactly one line, whichever of any number of 0/1
    lines it is, moves the decoded state to an adjacent state of the
    four-state cycle. *)
Theorem get_state_single_edge_adjacent (a b : list Z) (x : Z) :
  boolean_levels (a ++ x :: b) ->
  adjacent (rotary_encoder_get_state (a ++ x :: b))
           (rotary_encoder_get_state (a ++ (1 - x) :: b)).
Proof.
  intros Hb.
  assert (Hb' : boolean_levels (a ++ (1 - x) :: b)).
  { apply boolean_levels_app in Hb. destruct Hb as [Ha Hxb].
    apply boolean_levels_app. split; [assumption|].
    inversion Hxb; subst. constructor; [apply boolean_flip|]; assumption. }
  assert (Hx : x = 0 \/ x = 1).
  { apply boolean_levels_app in Hb. destruct Hb as [_ Hxb].
    inversion Hxb; assumption. }
  rewrite !get_state_parity by assumption.
  unfold adjacent.
  destruct b as [|y b].
  - rewrite !removelast_last, !level_sum_app.
    change (level_sum [x]) with (x + 0).
    change (level_sum [1 - x]) with (1 - x + 0).
    generalize (level_sum a). intros sa.
    destruct Hx as [-> | ->]; Z.to_euclidean_division_equations; lia.
  - rewrite !removelast_app by discriminate.
    change (removelast (x :: y :: b)) with (x :: removelast (y :: b)).
    change (removelast (1 - x :: y :: b)) with (1 - x :: removelast (y :: b)).
    rewrite !level_sum_app.
    change (level_sum (x :: removelast (y :: b)))
      with (x + level_sum (removelast (y :: b))).
    change (level_sum (1 - x :: removelast (y :: b)))
      with (1 - x + level_sum (removelast (y :: b))).
    change (level_sum (x :: y :: b)) with (x + level_sum (y :: b)).
    change (level_sum (1 - x :: y :: b)) with (1 - x + level_sum (y :: b)).
    generalize (level_sum a), (level_sum (removelast (y :: b))),
      (level_sum (y :: b)). intros sa sr sb.
    destruct Hx as [-> | ->]; Z.to_euclidean_division_equations; lia.
Qed.

Lemma get_state_single_edge_adjacent_witness :
  adjacent (rotary_encoder_get_state ([1] ++ 0 :: [1]))
           (rotary_encoder_get_state ([1] ++ (1 - 0) :: [1])).
Proof.
  apply (get_state_single_edge_adjacent [1] [1] 0).
  repeat (apply Forall_cons; [lia|]). apply Forall_nil.
Defined.

(** * Raw sampler: the levels as a binary number *)

Lemma binary_value_snoc (l : list Z) (x : Z) :
  binary_value (l ++ [x]) = 2 * binary_value l + x.
Proof. unfold binary_value. rewrite fold_left_app. reflexivity. Qed.

Lemma binary_fold_from (l : list Z) (a : Z) :
  fold_left (fun r v => 2 * r + v) l a =
  a * 2 ^ Z.of_nat (length l) + binary_value l.
Proof.
  unfold binary_value. revert a.
  induction l as [|x l IH]; intros a.
  - cbn. lia.
  - cbn [fold_left length]. rewrite (IH (2 * a + x)), (IH (2 * 0 + x)).
    rewrite Nat2Z.inj_succ, Z.pow_succ_r by lia. lia.
Qed.

Lemma binary_value_cons (x : Z) (l : list Z) :
  binary_value (x :: l) = x * 2 ^ Z.of_nat (length l) + binary_value l.
Proof.
  unfold binary_value at 1. cbn [fold_left].
  rewrite binary_fold_from. lia.
Qed.

Lemma binary_value_bound (l : list Z) :
  boolean_levels l -> 0 <= binary_value l < 2 ^ Z.of_nat (length l).
Proof.
  induction 1 as [|x l Hx _ IH].
  - cbn. lia.
  - rewrite binary_value_cons. cbn [length].
    rewrite Nat2Z.inj_succ, Z.pow_succ_r by lia.
    destruct Hx as [-> | ->]; lia.
Qed.

Lemma binary_value_inj (l1 : list Z) :
  boolean_levels l1 ->
  forall l2,
    boolean_levels l2 -> length l1 = length l2 ->
    binary_value l1 = binary_value l2 -> l1 = l2.
Proof.
  induction 1 as [|x l1 Hx Hl1 IH]; intros l2 Hl2 Hlen Hv.
  - destruct l2; [reflexivity|discriminate].
  - destruct l2 as [|y l2]; [discriminate|].
    inversion Hl2 as [|? ? Hy Hl2']; subst.
    injection Hlen as Hlen.
    rewrite !binary_value_cons in Hv. rewrite <- Hlen in Hv.
    pose proof (binary_value_bound l1 Hl1) as B1.
    pose proof (binary_value_bound l2 Hl2') as B2.
    rewrite <- Hlen in B2.
    set (P := 2 ^ Z.of_nat (length l1)) in *.
    assert (x = y /\ binary_value l1 = binary_value l2)
      by (destruct Hx as [-> | ->], Hy as [-> | ->]; lia).
    destruct H as [-> Hv']. f_equal. apply IH; assumption.
Qed.

Lemma get_gpios_state_fold (gpios : list Z) :
  boolean_levels gpios ->
  rotary_encoder_get_gpios_state gpios = binary_value gpios mod 2 ^ 32.
Proof.
  unfold rotary_encoder_get_gpios_state.
  induction gpios as [|x l IH] using rev_ind; intros Hb.
  - reflexivity.
  - apply boolean_levels_app in Hb. destruct Hb as [Hl Hx].
    inversion Hx as [|? ? Hx0 _]; subst.
    rewrite fold_left_app, binary_value_snoc. cbn [fold_left].
    rewrite (IH Hl). unfold get_gpios_state_step.
    rewrite shift_or_bit;
      [|apply Z.mod_pos_bound; reflexivity|assumption].
    generalize (binary_value l). intros v.
    change (2 ^ 32) with 4294967296.
    destruct Hx0 as [-> | ->]; Z.to_euclidean_division_equations; lia.
Qed.

Lemma get_gpios_state_small (gpios : list Z) :
  boolean_levels gpios -> (length gpios <= 32)%nat ->
  rotary_encoder_get_gpios_state gpios = binary_value gpios.
Proof.
  intros Hb Hlen. rewrite get_gpios_state_fold by assumption.
  apply Z.mod_small.
  pose proof (binary_value_bound gpios Hb) as B.
  assert (2 ^ Z.of_nat (length gpios) <= 2 ^ 32)
    by (apply Z.pow_le_mono_r; lia).
  lia.
Qed.

(** X3: for lines that read 0 or 1 the raw state is the binary number
    spelled by the levels, first line most significant, reduced modulo
    2^32; with at most 32 lines nothing is lost and the state is below
    2^n. *)
Theorem get_gpios_state_is_binary (gpios : list Z) :
  boolean_levels gpios ->
  rotary_encoder_get_gpios_state gpios = binary_value gpios mod 2 ^ 32 /\
  ((length gpios <= 32)%nat ->
   rotary_encoder_get_gpios_state gpios = binary_value gpios /\
   0 <= rotary_encoder_get_gpios_state gpios < 2 ^ Z.of_nat (length gpios)).
Proof.
  intros Hb. split; [apply get_gpios_state_fold; assumption|].
  intros Hlen. rewrite get_gpios_state_small by assumption.
  split; [reflexivity|apply binary_value_bound; assumption].
Qed.

Lemma get_gpios_state_is_binary_witness :
  rotary_encoder_get_gpios_state [1; 0; 1] = binary_value [1; 0; 1] mod 2 ^ 32 /\
  ((length [1; 0; 1] <= 32)%nat ->
   rotary_encoder_get_gpios_state [1; 0; 1] = binary_value [1; 0; 1] /\
   0 <= rotary_encoder_get_gpios_state [1; 0; 1]
     < 2 ^ Z.of_nat (length [1; 0; 1])).
Proof.
  apply (get_gpios_state_is_binary [1; 0; 1]).
  repeat (apply Forall_cons; [lia|]). apply Forall_nil.
Defined.

(** * Poll callback *)

Lemma poll_last_stable e g :
  last_stable (state_of (rotary_encoder_poll_gpios g e)) =
  rotary_encoder_get_gpios_state g.
Proof.
  rewrite poll_gpios_step. cbn [state_of].
  destruct (Z.eqb_spec (rotary_encoder_get_gpios_state g) (last_stable e)).
  - congruence.
  - reflexivity.
Qed.

Lemma poll_axis e g :
  axis (state_of (rotary_encoder_poll_gpios g e)) = axis e.
Proof.
  rewrite poll_gpios_step. cbn [state_of].
  destruct (_ =? _); reflexivity.
Qed.

Lemma s32_small (v : Z) : 0 <= v < 2 ^ 31 -> s32 v = v.
Proof.
  intros Hv. unfold s32.
  rewrite Z.mod_small by (change (2 ^ 32) with 4294967296;
                          change (2 ^ 31) with 2147483648 in Hv; lia).
  destruct (Z.ltb_spec v (2 ^ 31)); lia.
Qed.

(** X4: with at most 31 lines reading 0 or 1, the poll callback misses no
    change: polled on a line pattern that differs from the pattern of the
    previous poll, it reports exactly one absolute event, whose value is
    the binary number of the new pattern, and takes it as reference. *)
Theorem poll_detects_every_change e g1 g2 :
  boolean_levels g1 -> boolean_levels g2 ->
  length g1 = length g2 -> (length g1 <= 31)%nat -> g1 <> g2 ->
  rotary_encoder_poll_gpios g2 (state_of (rotary_encoder_poll_gpios g1 e)) =
  Returned tt
    (set_last_stable (binary_value g2)
       (set_input
          (input (state_of (rotary_encoder_poll_gpios g1 e)) ++
           [input_report_abs (axis e) (binary_value g2); input_sync])
          (state_of (rotary_encoder_poll_gpios g1 e)))).
Proof.
  intros Hb1 Hb2 Hlen H31 Hne.
  rewrite (poll_gpios_step (state_of (rotary_encoder_poll_gpios g1 e)) g2).
  rewrite poll_last_stable, poll_axis.
  rewrite !get_gpios_state_small by (assumption || lia).
  destruct (Z.eqb_spec (binary_value g2) (binary_value g1)) as [Heq | _].
  - exfalso. apply Hne. apply binary_value_inj; auto.
  - rewrite s32_small; [reflexivity|].
    pose proof (binary_value_bound g2 Hb2) as B.
    assert (2 ^ Z.of_nat (length g2) <= 2 ^ 31)
      by (apply Z.pow_le_mono_r; lia).
    lia.
Qed.

Lemma poll_detects_every_change_witness :
  rotary_encoder_poll_gpios [1; 1; 0]
    (state_of (rotary_encoder_poll_gpios [1; 0; 0] relative_encoder)) =
  Returned tt
    (set_last_stable (binary_value [1; 1; 0])
       (set_input
          (input (state_of (rotary_encoder_poll_gpios [1; 0; 0]
                              relative_encoder)) ++
           [input_report_abs (axis relative_encoder) (binary_value [1; 1; 0]);
            input_sync])
          (state_of (rotary_encoder_poll_gpios [1; 0; 0] relative_encoder)))).
Proof.
  assert (B1 : boolean_levels [1; 0; 0])
    by (repeat (apply Forall_cons; [lia|]); apply Forall_nil).
  assert (B2 : boolean_levels [1; 1; 0])
    by (repeat (apply Forall_cons; [lia|]); apply Forall_nil).
  assert (L : (length [1; 0; 0] <= 31)%nat) by (cbn; lia).
  assert (D : [1; 0; 0] <> [1; 1; 0]) by discriminate.
  exact (poll_detects_every_change relative_encoder [1; 0; 0] [1; 1; 0]
           B1 B2 eq_refl L D).
Defined.

Lemma last_cons_default {A} (l : list A) (x d : A) :
  last (x :: l) d = last l x.
Proof.
  revert x d. induction l as [|y l IH]; intros x d; [reflexivity|].
  change (last (x :: y :: l) d) with (last (y :: l) d).
  rewrite (IH y d), (IH y x). reflexivity.
Qed.

Lemma poll_all_trace samples :
  forall e,
    exists e',
      poll_all samples e = Returned tt e' /\
      axis e' = axis e /\
      input e' =
      input e ++
      flat_map (fun s => [input_report_abs (axis e) (s32 s); input_sync])
        (changes (last_stable e)
           (map rotary_encoder_get_gpios_state samples)) /\
      last_stable e' =
      last (map rotary_encoder_get_gpios_state samples) (last_stable e).
Proof.
  induction samples as [|g rest IH]; intros e.
  - exists e. cbn. rewrite app_nil_r. auto.
  - cbn [poll_all]. unfold bind. rewrite poll_gpios_step.
    cbn [map changes].
    destruct (Z.eqb_spec (rotary_encoder_get_gpios_state g) (last_stable e))
      as [Heq | Hne].
    + destruct (IH e) as [e' (Hrun & Hax & Hin & Hls)].
      exists e'. rewrite Hrun, Heq. repeat split; try assumption.
      rewrite Hls, last_cons_default. reflexivity.
    + destruct (IH (set_last_stable (rotary_encoder_get_gpios_state g)
                      (set_input
                         (input e ++
                          [input_report_abs (axis e)
                             (s32 (rotary_encoder_get_gpios_state g));
                           input_sync]) e)))
        as [e' (Hrun & Hax & Hin & Hls)].
      exists e'. rewrite Hrun. repeat split.
      * rewrite Hax. reflexivity.
      * rewrite Hin. cbn [input set_input set_last_stable axis last_stable
                          flat_map].
        rewrite <- app_assoc. reflexivity.
      * rewrite Hls, last_cons_default. reflexivity.
Qed.

(** X5: a run of polls reports exactly the sampled raw states that differ
    from their predecessor (the first being compared with the stored
    reference), each as one absolute event followed by a sync, in order;
    the reference ends as the last sampled state. The callback always
    returns. *)
Theorem poll_reports_changes samples e :
  exists e',
    poll_all samples e = Returned tt e' /\
    input e' =
    input e ++
    flat_map (fun s => [input_report_abs (axis e) (s32 s); input_sync])
      (changes (last_stable e)
         (map rotary_encoder_get_gpios_state samples)) /\
    last_stable e' =
    last (map rotary_encoder_get_gpios_state samples) (last_stable e).
Proof.
  destruct (poll_all_trace samples e) as [e' (Hrun & _ & Hin & Hls)].
  exists e'. auto.
Qed.

(** * Absolute interrupt handler *)

(** X6: on the interrupt path of an absolute encoder only the first
    interrupt is ever decoded: a sequence of interrupts stops in the first
    handler, every later invocation blocks at once on the mutex the first
    one left held without sampling or reporting, so at most one event is
    reported in all. *)
Theorem absolute_irq_decodes_once e g rest :
  access_mutex e = false ->
  deliver absolute_encoder_irq (g :: rest) e =
    rotary_absolute_encoder_irq g e /\
  (forall g',
     rotary_absolute_encoder_irq g'
       (state_of (rotary_absolute_encoder_irq g e)) =
     Blocked (state_of (rotary_absolute_encoder_irq g e))) /\
  (reports (input (state_of (deliver absolute_encoder_irq (g :: rest) e)))
   <= S (reports (input e)))%nat.
Proof.
  intros Hm.
  assert (Hd : deliver absolute_encoder_irq (g :: rest) e =
               rotary_absolute_encoder_irq g e).
  { cbn [deliver run_handler]. unfold bind.
    rewrite absolute_irq_step by assumption. reflexivity. }
  split; [exact Hd|]. split.
  - intros g'. rewrite (absolute_irq_step e g Hm). cbn [state_of].
    apply (held_blocks absolute_encoder_irq). reflexivity.
  - rewrite Hd, (absolute_irq_step e g Hm). cbn [state_of].
    destruct (_ =? _); cbn [input set_access_mutex set_last_stable set_input].
    + lia.
    + rewrite reports_app. cbn. lia.
Qed.

Lemma absolute_irq_decodes_once_witness :
  deliver absolute_encoder_irq [[1; 0]; [1; 1]; [0; 1]] relative_encoder =
  rotary_absolute_encoder_irq [1; 0] relative_encoder.
Proof.
  exact (proj1 (absolute_irq_decodes_once relative_encoder [1; 0]
                  [[1; 1]; [0; 1]] eq_refl)).
Defined.

(** * Event reporter: the position as a counter *)

Lemma u32_small (v : Z) : 0 <= v < 2 ^ 32 -> u32 v = v.
Proof. intros Hv. apply Z.mod_small. assumption. Qed.

Lemma report_pos_clamp e :
  rollover e = false ->
  0 <= pos e <= steps e -> steps e < 2 ^ 32 ->
  report_pos e =
  if dir e <? 0 then Z.max 0 (pos e - 1) else Z.min (steps e) (pos e + 1).
Proof.
  intros Hroll Hp Hn. unfold report_pos, report_turn. rewrite Hroll.
  cbn [orb]. destruct (dir e <? 0).
  - destruct (Z.eqb_spec (pos e) 0) as [Hz | Hz]; cbn [negb].
    + lia.
    + rewrite u32_small by lia. lia.
  - destruct (Z.ltb_spec (pos e) (steps e)).
    + rewrite u32_small by lia. lia.
    + lia.
Qed.

Lemma report_pos_ring e :
  rollover e = true ->
  0 < steps e -> 0 <= pos e < steps e -> pos e + steps e < 2 ^ 32 ->
  report_pos e =
  if dir e <? 0
  then (if pos e =? 0 then steps e - 1 else pos e - 1)
  else (if pos e + 1 =? steps e then 0 else pos e + 1).
Proof.
  intros Hroll Hn Hp Hw. unfold report_pos, report_turn. rewrite Hroll.
  cbn [orb]. destruct (dir e <? 0).
  - rewrite (u32_small (pos e + steps e)) by lia.
    destruct (Z.eqb_spec (pos e + steps e) 0) as [Hz | _]; [lia|].
    cbn [negb]. rewrite u32_small by lia.
    destruct (Z.eqb_spec (pos e) 0) as [Hz | Hz].
    + rewrite Hz. apply Z.mod_small. lia.
    + replace (pos e + steps e - 1) with (pos e - 1 + 1 * steps e) by lia.
      rewrite Z_mod_plus_full. apply Z.mod_small. lia.
  - rewrite u32_small by lia.
    destruct (Z.eqb_spec (pos e + 1) (steps e)) as [Hz | Hz].
    + rewrite Hz. apply Z_mod_same_full.
    + apply Z.mod_small. lia.
Qed.

(** X7: without rollover the reporter keeps the position inside
    [0, steps]: a counter-clockwise event decrements it unless it is 0, any
    other event increments it unless it has reached [steps]. *)
Theorem report_event_clamps e :
  relative_axis e = false -> rollover e = false ->
  0 <= pos e <= steps e -> steps e < 2 ^ 32 ->
  exists e',
    rotary_encoder_report_event e = Returned tt e' /\
    pos e' =
      (if dir e <? 0 then Z.max 0 (pos e - 1)
       else Z.min (steps e) (pos e + 1)) /\
    0 <= pos e' <= steps e /\
    steps e' = steps e.
Proof.
  intros Hrel Hroll Hp Hn. eexists. split.
  - apply report_event_absolute; [assumption|congruence].
  - cbn [pos steps set_input set_pos].
    rewrite report_pos_clamp by assumption.
    repeat split; destruct (dir e <? 0); lia.
Qed.

Lemma report_event_clamps_witness :
  exists e',
    rotary_encoder_report_event (abs_axis_encoder 4 false 4 1) =
      Returned tt e' /\
    pos e' = Z.min 4 (4 + 1) /\
    0 <= pos e' <= 4 /\
    steps e' = 4.
Proof.
  apply (report_event_clamps (abs_axis_encoder 4 false 4 1));
    [reflexivity | reflexivity | cbn; lia | cbn; lia].
Defined.

(** X8: with rollover, [steps > 0] and no unsigned overflow of
    [pos + steps], the reporter steps the position around the ring
    [0, steps): a counter-clockwise event goes from 0 to [steps - 1] and
    otherwise one down, any other event goes from [steps - 1] to 0 and
    otherwise one up. *)
Theorem report_event_wraps e :
  relative_axis e = false -> rollover e = true ->
  0 < steps e -> 0 <= pos e < steps e -> pos e + steps e < 2 ^ 32 ->
  exists e',
    rotary_encoder_report_event e = Returned tt e' /\
    pos e' =
      (if dir e <? 0
       then (if pos e =? 0 then steps e - 1 else pos e - 1)
       else (if pos e + 1 =? steps e then 0 else pos e + 1)) /\
    0 <= pos e' < steps e.
Proof.
  intros Hrel Hroll Hn Hp Hw. eexists. split.
  - apply report_event_absolute; [assumption|lia].
  - cbn [pos set_input set_pos]. rewrite report_pos_ring by assumption.
    split; [reflexivity|].
    destruct (dir e <? 0);
      [destruct (Z.eqb_spec (pos e) 0)
      |destruct (Z.eqb_spec (pos e + 1) (steps e))]; lia.
Qed.

Lemma report_event_wraps_witness :
  exists e',
    rotary_encoder_report_event (abs_axis_encoder 24 true 0 (-1)) =
      Returned tt e' /\
    pos e' = 24 - 1 /\
    0 <= pos e' < 24.
Proof.
  apply (report_event_wraps (abs_axis_encoder 24 true 0 (-1)));
    [reflexivity | reflexivity | cbn; lia | cbn; lia | cbn; lia].
Defined.

Lemma report_pos_ring_mod e :
  rollover e = true ->
  0 < steps e -> 0 <= pos e < steps e -> 2 * steps e <= 2 ^ 32 ->
  report_pos e = (pos e + (if dir e <? 0 then -1 else 1)) mod steps e.
Proof.
  intros Hroll Hn Hp Hw. unfold report_pos, report_turn. rewrite Hroll.
  cbn [orb]. destruct (dir e <? 0).
  - rewrite (u32_small (pos e + steps e)) by lia.
    destruct (Z.eqb_spec (pos e + steps e) 0) as [Hz | _]; [lia|].
    cbn [negb]. rewrite u32_small by lia.
    replace (pos e + steps e - 1) with (pos e + -1 + 1 * steps e) by lia.
    apply Z_mod_plus_full.
  - rewrite u32_small by lia. reflexivity.
Qed.

(** One reporter call on an absolute axis with rollover, as a state
    change. *)
Lemma report_event_ring e :
  relative_axis e = false -> rollover e = true ->
  0 < steps e -> 0 <= pos e < steps e -> 2 * steps e <= 2 ^ 32 ->
  rotary_encoder_report_event e =
  Returned tt
    (set_input
       (input e ++
        [input_report_abs (axis e)
           (s32 ((pos e + (if dir e <? 0 then -1 else 1)) mod steps e));
         input_sync])
       (set_pos ((pos e + (if dir e <? 0 then -1 else 1)) mod steps e) e)).
Proof.
  intros Hrel Hroll Hn Hp Hw.
  rewrite report_event_absolute by (assumption || lia).
  rewrite report_pos_ring_mod by assumption. reflexivity.
Qed.

Lemma report_events_ring k :
  forall e,
    relative_axis e = false -> rollover e = true ->
    0 < steps e -> 0 <= pos e < steps e -> 2 * steps e <= 2 ^ 32 ->
    exists e',
      report_events k e = Returned tt e' /\
      pos e' =
        (pos e + Z.of_nat k * (if dir e <? 0 then -1 else 1)) mod steps e /\
      reports (input e') = (reports (input e) + k)%nat.
Proof.
  induction k as [|k IH]; intros e Hrel Hroll Hn Hp Hw.
  - exists e. cbn [report_events ret]. repeat split.
    + rewrite Z.mul_0_l, Z.add_0_r. symmetry. apply Z.mod_small. assumption.
    + lia.
  - cbn [report_events]. unfold bind.
    rewrite report_event_ring by assumption.
    set (delta := if dir e <? 0 then -1 else 1).
    destruct (IH (set_input
                    (input e ++
                     [input_report_abs (axis e)
                        (s32 ((pos e + delta) mod steps e)); input_sync])
                    (set_pos ((pos e + delta) mod steps e) e)))
      as [e' (Hrun & Hpos & Hrep)]; try assumption.
    + cbn [pos steps set_input set_pos]. apply Z.mod_pos_bound. assumption.
    + exists e'. split; [exact Hrun|]. split.
      * rewrite Hpos. cbn [pos steps dir set_input set_pos]. fold delta.
        rewrite Zplus_mod_idemp_l. f_equal. lia.
      * rewrite Hrep. cbn [input set_input]. rewrite reports_app. cbn. lia.
Qed.

(** X9: with rollover and [0 < steps <= 2^31], a clockwise event followed
    by a counter-clockwise event brings the position back, and so does a
    counter-clockwise event followed by a clockwise one. *)
Theorem report_event_back_and_forth e d :
  relative_axis e = false -> rollover e = true ->
  0 < steps e -> 0 <= pos e < steps e -> 2 * steps e <= 2 ^ 32 ->
  d = 1 \/ d = -1 ->
  exists e1 e2,
    rotary_encoder_report_event (set_dir d e) = Returned tt e1 /\
    rotary_encoder_report_event (set_dir (- d) e1) = Returned tt e2 /\
    pos e2 = pos e /\
    reports (input e2) = S (S (reports (input e))).
Proof.
  intros Hrel Hroll Hn Hp Hw Hd.
  eexists. eexists. split; [|split].
  - apply report_event_ring; assumption.
  - apply report_event_ring; cbn [relative_axis rollover steps pos set_dir
                                   set_input set_pos]; try assumption.
    apply Z.mod_pos_bound. assumption.
  - cbn [pos steps dir input set_dir set_input set_pos]. split.
    + rewrite Zplus_mod_idemp_l.
      replace (pos e + (if d <? 0 then -1 else 1) +
               (if - d <? 0 then -1 else 1)) with (pos e)
        by (destruct Hd as [-> | ->]; cbn; lia).
      apply Z.mod_small. assumption.
    + rewrite !reports_app. cbn. lia.
Qed.

Lemma report_event_back_and_forth_witness :
  exists e1 e2,
    rotary_encoder_report_event (set_dir 1 (abs_axis_encoder 24 true 23 0)) =
      Returned tt e1 /\
    rotary_encoder_report_event (set_dir (- 1) e1) = Returned tt e2 /\
    pos e2 = pos (abs_axis_encoder 24 true 23 0) /\
    reports (input e2) =
    S (S (reports (input (abs_axis_encoder 24 true 23 0)))).
Proof.
  apply (report_event_back_and_forth (abs_axis_encoder 24 true 23 0) 1);
    [reflexivity | reflexivity | cbn; lia | cbn; lia | cbn; lia
    | left; reflexivity].
Defined.

(** X10: with rollover and [0 < steps <= 2^31], [k] events in a row in
    one direction move the position by [k] around the ring: to
    [(pos + k) mod steps] clockwise, to [(pos - k) mod steps]
    counter-clockwise; [steps] events make one full turn and restore the
    position. *)
Theorem report_events_turn k e :
  relative_axis e = false -> rollover e = true ->
  0 < steps e -> 0 <= pos e < steps e -> 2 * steps e <= 2 ^ 32 ->
  exists e',
    report_events k e = Returned tt e' /\
    pos e' =
      (if dir e <? 0 then (pos e - Z.of_nat k) mod steps e
       else (pos e + Z.of_nat k) mod steps e) /\
    reports (input e') = (reports (input e) + k)%nat /\
    (Z.of_nat k = steps e -> pos e' = pos e).
Proof.
  intros Hrel Hroll Hn Hp Hw.
  destruct (report_events_ring k e Hrel Hroll Hn Hp Hw)
    as [e' (Hrun & Hpos & Hrep)].
  exists e'. split; [exact Hrun|].
  assert (Hpos' : pos e' =
                  (if dir e <? 0 then (pos e - Z.of_nat k) mod steps e
                   else (pos e + Z.of_nat k) mod steps e)).
  { rewrite Hpos. destruct (dir e <? 0); f_equal; lia. }
  split; [exact Hpos'|]. split; [exact Hrep|].
  intros Hk. rewrite Hpos', Hk. destruct (dir e <? 0).
  - replace (pos e - steps e) with (pos e + (-1) * steps e) by lia.
    rewrite Z_mod_plus_full. apply Z.mod_small. assumption.
  - replace (pos e + steps e) with (pos e + 1 * steps e) by lia.
    rewrite Z_mod_plus_full. apply Z.mod_small. assumption.
Qed.

Lemma report_events_turn_witness :
  exists e',
    report_events 4 (abs_axis_encoder 4 true 1 (-1)) = Returned tt e' /\
    pos e' = (1 - Z.of_nat 4) mod 4 /\
    reports (input e') = (0 + 4)%nat /\
    (Z.of_nat 4 = 4 -> pos e' = 1).
Proof.
  apply (report_events_turn 4 (abs_axis_encoder 4 true 1 (-1)));
    [reflexivity | reflexivity | cbn; lia | cbn; lia | cbn; lia].
Defined.

(** * Full-period decoding over sample sequences *)

Lemma irq_is_next e g :
  access_mutex e = false -> report_ok e = true ->
  rotary_encoder_irq g e =
  Returned tt (full_period_next (rotary_encoder_get_state g) e).
Proof.
  intros Hm Hok. unfold full_period_next.
  destruct (get_state_cases g) as [H | [H | [H | H]]].
  - rewrite H. cbn [Z.eqb]. destruct (armed e) eqn:Ha.
    + apply irq_rest_armed; assumption.
    + apply irq_rest_unarmed; assumption.
  - rewrite irq_transition by auto. rewrite H. reflexivity.
  - rewrite irq_midpoint by assumption. rewrite H. reflexivity.
  - rewrite irq_transition by auto. rewrite H. reflexivity.
Qed.

Lemma after_report_ok e : report_ok (after_report e) = report_ok e.
Proof. enc e. unfold after_report, report_ok. cbn. destruct rel; reflexivity. Qed.

Lemma full_period_next_keeps s e :
  access_mutex (full_period_next s e) = access_mutex e /\
  report_ok (full_period_next s e) = report_ok e.
Proof.
  unfold full_period_next.
  destruct (s =? 0); [|destruct ((s =? 1) || (s =? 3)); [|destruct (s =? 2)]];
    destruct (armed e); split;
    try reflexivity;
    try (enc e; unfold after_report, report_ok; cbn; destruct rel; reflexivity).
Qed.

Lemma deliver_app h l1 l2 e e1 :
  deliver h l1 e = Returned tt e1 ->
  deliver h (l1 ++ l2) e = deliver h l2 e1.
Proof.
  revert e. induction l1 as [|g l1 IH]; intros e H.
  - cbn in H. inversion H. reflexivity.
  - cbn [deliver app] in *. unfold bind in *.
    destruct (run_handler h g e) as [[] e0 | e0 | e0]; try discriminate.
    apply IH. assumption.
Qed.

Lemma unarmed_run samples e :
  Forall (fun g => rotary_encoder_get_state g <> 2) samples ->
  armed e = false -> access_mutex e = false ->
  deliver encoder_irq samples e = Returned tt e.
Proof.
  intros Hs Ha Hm. induction Hs as [|g samples Hg _ IH]; [reflexivity|].
  rewrite (deliver_cons encoder_irq g samples e e); [exact IH|].
  cbn [run_handler].
  destruct (get_state_cases g) as [H | [H | [H | H]]]; try contradiction.
  - apply irq_rest_unarmed; assumption.
  - rewrite irq_transition by auto. rewrite Ha. reflexivity.
  - rewrite irq_transition by auto. rewrite Ha. reflexivity.
Qed.

(** X11: in full-period mode an unarmed encoder that never samples the
    midpoint state 2 stays exactly as it is, whatever the samples and their
    number: flipping back before the midpoint reports nothing. *)
Theorem full_period_ignores_unarmed samples e :
  Forall (fun g => rotary_encoder_get_state g <> 2) samples ->
  armed e = false -> access_mutex e = false ->
  deliver encoder_irq samples e = Returned tt e.
Proof.
  intros Hs Ha Hm. induction Hs as [|g samples Hg Hrest IH]; [reflexivity|].
  assert (Hstep : rotary_encoder_irq g e = Returned tt e).
  { destruct (get_state_cases g) as [H | [H | [H | H]]]; try contradiction.
    - apply irq_rest_unarmed; assumption.
    - rewrite irq_transition by auto. rewrite Ha. reflexivity.
    - rewrite irq_transition by auto. rewrite Ha. reflexivity. }
  rewrite (deliver_cons encoder_irq g samples e e Hstep). exact IH.
Qed.

Lemma full_period_ignores_unarmed_witness :
  deliver encoder_irq [[0; 1]; [0; 0]; [1; 0]; [0; 0]; [0; 1]]
    relative_encoder =
  Returned tt relative_encoder.
Proof.
  apply (full_period_ignores_unarmed
           [[0; 1]; [0; 0]; [1; 0]; [0; 0]; [0; 1]] relative_encoder);
    [|reflexivity|reflexivity].
  repeat (apply Forall_cons; [vm_compute; discriminate|]). apply Forall_nil.
Defined.

Lemma count_state_cons s g samples :
  count_state s (g :: samples) =
  ((if (rotary_encoder_get_state g =? s)%Z then 1 else 0) +
   count_state s samples)%nat.
Proof.
  unfold count_state. cbn [filter].
  destruct (rotary_encoder_get_state g =? s); reflexivity.
Qed.

Lemma full_period_budget samples :
  forall e,
    access_mutex e = false -> report_ok e = true ->
    exists e',
      deliver encoder_irq samples e = Returned tt e' /\
      (reports (input e') + (if armed e' then 1 else 0) <=
       reports (input e) + (if armed e then 1 else 0) +
       count_state 2 samples)%nat /\
      (reports (input e') <= reports (input e) + count_state 0 samples)%nat.
Proof.
  induction samples as [|g samples IH]; intros e Hm Hok.
  - exists e. cbn. repeat split; lia.
  - destruct (full_period_next_keeps (rotary_encoder_get_state g) e)
      as [Hm' Hok'].
    destruct (IH (full_period_next (rotary_encoder_get_state g) e))
      as [e' (Hrun & Hb2 & Hb0)]; [congruence|congruence|].
    exists e'. split.
    + rewrite (deliver_cons encoder_irq g samples e _ (irq_is_next e g Hm Hok)).
      exact Hrun.
    + rewrite !count_state_cons. revert Hb2 Hb0. unfold full_period_next.
      destruct (get_state_cases g) as [H | [H | [H | H]]]; rewrite H;
        cbn [Z.eqb Pos.eqb orb]; destruct (armed e) eqn:Ha;
        cbn [armed set_armed set_dir input];
        try rewrite reports_after_report; try rewrite Ha;
        intros; split; lia.
Qed.

(** X12: in full-period mode the events reported over any run of samples
    are bounded by the armings: at most one event per sample of the
    midpoint state 2 (plus one if the encoder was armed already), and at
    most one per sample of the rest state 0. *)
Theorem full_period_one_event_per_arming samples e :
  access_mutex e = false -> report_ok e = true ->
  exists e',
    deliver encoder_irq samples e = Returned tt e' /\
    (reports (input e') <=
     reports (input e) + (if armed e then 1 else 0) +
     count_state 2 samples)%nat /\
    (reports (input e') <= reports (input e) + count_state 0 samples)%nat.
Proof.
  intros Hm Hok.
  destruct (full_period_budget samples e Hm Hok) as [e' (Hrun & Hb2 & Hb0)].
  exists e'. repeat split; try assumption. lia.
Qed.

Lemma full_period_one_event_per_arming_witness :
  exists e',
    deliver encoder_irq two_detents relative_encoder = Returned tt e' /\
    (reports (input e') <=
     reports (input relative_encoder) +
     (if armed relative_encoder then 1 else 0) +
     count_state 2 two_detents)%nat /\
    (reports (input e') <=
     reports (input relative_encoder) +
     count_state 0 two_detents)%nat.
Proof.
  exact (full_period_one_event_per_arming
           two_detents relative_encoder eq_refl eq_refl).
Defined.

Lemma armed_run mids :
  Forall (fun g => rotary_encoder_get_state g <> 0) mids ->
  forall e,
    armed e = true -> access_mutex e = false ->
    deliver encoder_irq mids e =
    Returned tt
      (set_dir (latched_dir (dir e) (map rotary_encoder_get_state mids)) e).
Proof.
  induction 1 as [|g mids Hg _ IH]; intros e Ha Hm.
  - cbn. enc e. reflexivity.
  - cbn [map]. unfold latched_dir. cbn [fold_left].
    destruct (get_state_cases g) as [H | [H | [H | H]]]; try contradiction;
      rewrite H; cbn [Z.eqb Pos.eqb orb].
    + rewrite (deliver_cons encoder_irq g mids e (set_dir (2 - 1) e)).
      * rewrite IH by (enc e; reflexivity). reflexivity.
      * cbn [run_handler]. rewrite irq_transition by auto.
        rewrite Ha, H. reflexivity.
    + rewrite (deliver_cons encoder_irq g mids e e).
      * apply IH; assumption.
      * cbn [run_handler]. rewrite irq_midpoint by assumption.
        enc e. reflexivity.
    + rewrite (deliver_cons encoder_irq g mids e (set_dir (2 - 3) e)).
      * rewrite IH by (enc e; reflexivity). reflexivity.
      * cbn [run_handler]. rewrite irq_transition by auto.
        rewrite Ha, H. reflexivity.
Qed.

(** X13: one detent in full-period mode. From an unarmed encoder, any
    samples short of the midpoint, then the midpoint state 2, then any
    samples other than the rest state, then the rest state 0, report
    exactly one event, on the closing sample; its direction is [2 - state]
    of the last sample of state 1 or 3 seen after the midpoint (the stored
    direction if there was none). *)
Theorem full_period_detent pre g2 mids g0 e :
  armed e = false -> access_mutex e = false -> report_ok e = true ->
  Forall (fun g => rotary_encoder_get_state g <> 2) pre ->
  rotary_encoder_get_state g2 = 2 ->
  Forall (fun g => rotary_encoder_get_state g <> 0) mids ->
  rotary_encoder_get_state g0 = 0 ->
  deliver encoder_irq (pre ++ g2 :: mids) e =
    Returned tt
      (set_dir (latched_dir (dir e) (map rotary_encoder_get_state mids))
         (set_armed true e)) /\
  deliver encoder_irq (pre ++ g2 :: mids ++ [g0]) e =
    Returned tt
      (after_report
         (set_dir (latched_dir (dir e) (map rotary_encoder_get_state mids))
            e)) /\
  reports
    (input
       (after_report
          (set_dir (latched_dir (dir e) (map rotary_encoder_get_state mids))
             e))) = S (reports (input e)).
Proof.
  intros Ha Hm Hok Hpre H2 Hmids H0.
  assert (Hrun : deliver encoder_irq (pre ++ g2 :: mids) e =
                 Returned tt
                   (set_dir (latched_dir (dir e)
                               (map rotary_encoder_get_state mids))
                      (set_armed true e))).
  { rewrite (deliver_app encoder_irq pre (g2 :: mids) e e
               (unarmed_run pre e Hpre Ha Hm)).
    rewrite (deliver_cons encoder_irq g2 mids e (set_armed true e)
               (irq_midpoint e g2 Hm H2)).
    rewrite armed_run by (assumption || (enc e; reflexivity)).
    reflexivity. }
  split; [exact Hrun|]. split.
  - replace (pre ++ g2 :: mids ++ [g0]) with ((pre ++ g2 :: mids) ++ [g0])
      by (rewrite <- app_assoc; reflexivity).
    rewrite (deliver_app encoder_irq _ [g0] e _ Hrun).
    cbn [deliver run_handler]. unfold bind.
    rewrite (irq_rest_armed
               (set_dir (latched_dir (dir e)
                           (map rotary_encoder_get_state mids))
                  (set_armed true e)) g0);
      try (enc e; auto; fail).
    cbn [ret]. enc e. unfold after_report. cbn.
    destruct rel; reflexivity.
  - rewrite reports_after_report. reflexivity.
Qed.

Lemma full_period_detent_witness :
  deliver encoder_irq
    ([[0; 1]; [0; 0]; [0; 1]] ++ [1; 1] :: [[1; 0]; [1; 1]; [1; 0]] ++
     [[0; 0]]) relative_encoder =
  Returned tt
    (after_report
       (set_dir
          (latched_dir (dir relative_encoder)
             (map rotary_encoder_get_state [[1; 0]; [1; 1]; [1; 0]]))
          relative_encoder)).
Proof.
  assert (Hpre : Forall (fun g => rotary_encoder_get_state g <> 2)
                   [[0; 1]; [0; 0]; [0; 1]])
    by (repeat (apply Forall_cons; [vm_compute; discriminate|]);
        apply Forall_nil).
  assert (Hmids : Forall (fun g => rotary_encoder_get_state g <> 0)
                    [[1; 0]; [1; 1]; [1; 0]])
    by (repeat (apply Forall_cons; [vm_compute; discriminate|]);
        apply Forall_nil).
  exact (proj1 (proj2 (full_period_detent [[0; 1]; [0; 0]; [0; 1]] [1; 1]
                         [[1; 0]; [1; 1]; [1; 0]] [0; 0] relative_encoder
                         eq_refl eq_refl eq_refl Hpre eq_refl Hmids
                         eq_refl))).
Defined.

(** * Half- and quarter-period decoding over sample sequences *)

Lemma half_is_next e g :
  access_mutex e = false -> report_ok e = true ->
  rotary_encoder_half_period_irq g e =
  Returned tt (half_period_next (rotary_encoder_get_state g) e).
Proof.
  intros Hm Hok. unfold half_period_next.
  destruct (Z.eqb_spec (Z.land (rotary_encoder_get_state g) 1) 0)
    as [Hev | Hodd]; cbn [negb].
  - destruct (Z.eqb_spec (rotary_encoder_get_state g) (last_stable e)).
    + apply half_even_same; assumption.
    + apply half_even_commit; assumption.
  - apply half_odd; assumption.
Qed.

Lemma quarter_is_next e g :
  access_mutex e = false -> report_ok e = true ->
  rotary_encoder_quarter_period_irq g e =
  Returned tt (quarter_period_next (rotary_encoder_get_state g) e).
Proof. apply quarter_step. Qed.

Lemma half_period_next_keeps s e :
  access_mutex (half_period_next s e) = access_mutex e /\
  report_ok (half_period_next s e) = report_ok e.
Proof.
  unfold half_period_next.
  destruct (negb (Z.land s 1 =? 0)); [|destruct (s =? last_stable e)];
    split; try reflexivity;
    enc e; unfold after_report, report_ok; cbn; destruct rel; reflexivity.
Qed.

Lemma quarter_period_next_keeps s e :
  access_mutex (quarter_period_next s e) = access_mutex e /\
  report_ok (quarter_period_next s e) = report_ok e.
Proof.
  unfold quarter_period_next.
  destruct (u32 (last_stable e + 1) mod 4 =? s);
    [|destruct (last_stable e =? u32 (s + 1) mod 4)];
    split; try reflexivity;
    enc e; unfold after_report, report_ok; cbn; destruct rel; reflexivity.
Qed.

(** A run of returning handlers is the fold of the transition function. *)
Lemma deliver_full_fold samples :
  forall e,
    access_mutex e = false -> report_ok e = true ->
    deliver encoder_irq samples e =
    Returned tt
      (fold_left (fun e g => full_period_next (rotary_encoder_get_state g) e)
         samples e).
Proof.
  induction samples as [|g samples IH]; intros e Hm Hok; [reflexivity|].
  destruct (full_period_next_keeps (rotary_encoder_get_state g) e).
  rewrite (deliver_cons encoder_irq g samples e _ (irq_is_next e g Hm Hok)).
  apply IH; congruence.
Qed.

Lemma deliver_half_fold samples :
  forall e,
    access_mutex e = false -> report_ok e = true ->
    deliver half_period_irq samples e =
    Returned tt
      (fold_left (fun e g => half_period_next (rotary_encoder_get_state g) e)
         samples e).
Proof.
  induction samples as [|g samples IH]; intros e Hm Hok; [reflexivity|].
  destruct (half_period_next_keeps (rotary_encoder_get_state g) e).
  rewrite (deliver_cons half_period_irq g samples e _ (half_is_next e g Hm Hok)).
  apply IH; congruence.
Qed.

Lemma deliver_quarter_fold samples :
  forall e,
    access_mutex e = false -> report_ok e = true ->
    deliver quarter_period_irq samples e =
    Returned tt
      (fold_left
         (fun e g => quarter_period_next (rotary_encoder_get_state g) e)
         samples e).
Proof.
  induction samples as [|g samples IH]; intros e Hm Hok; [reflexivity|].
  destruct (quarter_period_next_keeps (rotary_encoder_get_state g) e).
  rewrite (deliver_cons quarter_period_irq g samples e _
             (quarter_is_next e g Hm Hok)).
  apply IH; congruence.
Qed.

(** X14: in half-period mode, samples that are odd or repeat the
    reference state report nothing and leave the reference alone, however
    many they are: a rotation reversed half-way is dropped. Only the
    stored direction may change. *)
Theorem half_period_reversal_dropped samples e :
  Forall (fun g => Z.land (rotary_encoder_get_state g) 1 <> 0 \/
                   rotary_encoder_get_state g = last_stable e) samples ->
  access_mutex e = false ->
  exists dv, deliver half_period_irq samples e = Returned tt (set_dir dv e).
Proof.
  intros Hs Hm. revert e Hs Hm.
  induction samples as [|g samples IH]; intros e Hs Hm.
  - exists (dir e). enc e. reflexivity.
  - inversion Hs as [|? ? Hg Hrest]; subst.
    destruct (Z.eq_dec (Z.land (rotary_encoder_get_state g) 1) 0)
      as [Hev | Hodd].
    + destruct Hg as [Hg | Hg]; [contradiction|].
      destruct (IH e Hrest Hm) as [dv Hrun]. exists dv.
      rewrite (deliver_cons half_period_irq g samples e e); [exact Hrun|].
      apply half_even_same; assumption.
    + destruct (IH (set_dir ((last_stable e - rotary_encoder_get_state g + 1)
                               mod 4 - 1) e)) as [dv Hrun].
      * exact Hrest.
      * enc e. reflexivity.
      * exists dv.
        rewrite (deliver_cons half_period_irq g samples e _
                   (half_odd e g Hm Hodd)).
        rewrite Hrun. enc e. reflexivity.
Qed.

Lemma half_period_reversal_dropped_witness :
  exists dv,
    deliver half_period_irq [[0; 1]; [0; 0]; [1; 0]; [0; 0]]
      relative_encoder = Returned tt (set_dir dv relative_encoder).
Proof.
  apply (half_period_reversal_dropped [[0; 1]; [0; 0]; [1; 0]; [0; 0]]
           relative_encoder); [|reflexivity].
  apply Forall_cons; [left; vm_compute; discriminate|].
  apply Forall_cons; [right; reflexivity|].
  apply Forall_cons; [left; vm_compute; discriminate|].
  apply Forall_cons; [right; reflexivity|].
  apply Forall_nil.
Defined.

(** X15: the quarter-period decision, for a reference state in 0..3: the
    next state up the cycle reports +1, the next state down reports -1,
    the opposite state and the same state report nothing; in all four
    cases the sample becomes the reference. *)
Theorem quarter_period_decision e g :
  access_mutex e = false -> report_ok e = true ->
  0 <= last_stable e < 4 ->
  (rotary_encoder_get_state g = (last_stable e + 1) mod 4 ->
   rotary_encoder_quarter_period_irq g e =
   Returned tt
     (set_last_stable (rotary_encoder_get_state g)
        (after_report (set_dir 1 e)))) /\
  (rotary_encoder_get_state g = (last_stable e + 3) mod 4 ->
   rotary_encoder_quarter_period_irq g e =
   Returned tt
     (set_last_stable (rotary_encoder_get_state g)
        (after_report (set_dir (-1) e)))) /\
  (rotary_encoder_get_state g = (last_stable e + 2) mod 4 \/
   rotary_encoder_get_state g = last_stable e ->
   rotary_encoder_quarter_period_irq g e =
   Returned tt (set_last_stable (rotary_encoder_get_state g) e)).
Proof.
  intros Hm Hok Hls.
  rewrite quarter_step by assumption.
  assert (Hc : last_stable e = 0 \/ last_stable e = 1 \/
               last_stable e = 2 \/ last_stable e = 3) by lia.
  split; [|split]; intros Hs.
  - rewrite Hs. destruct Hc as [-> | [-> | [-> | ->]]]; reflexivity.
  - rewrite Hs. destruct Hc as [-> | [-> | [-> | ->]]]; reflexivity.
  - destruct Hs as [Hs | Hs]; rewrite Hs;
      destruct Hc as [-> | [-> | [-> | ->]]]; reflexivity.
Qed.

Lemma quarter_period_decision_witness :
  rotary_encoder_quarter_period_irq [1; 0] relative_encoder =
  Returned tt
    (set_last_stable (rotary_encoder_get_state [1; 0])
       (after_report (set_dir (-1) relative_encoder))).
Proof.
  assert (Hls : 0 <= last_stable relative_encoder < 4) by (cbn; lia).
  exact (proj1 (proj2 (quarter_period_decision relative_encoder [1; 0]
                         eq_refl eq_refl Hls)) eq_refl).
Defined.

(** X16: the half-period direction by sense of rotation, for an even
    reference state: stepping up the cycle (reference + 1, then
    reference + 2) commits one event of direction -1, stepping down
    (reference - 1, then reference - 2) commits one event of direction +1;
    the reached even state becomes the reference. *)
Theorem half_period_sense e g1 g2 :
  access_mutex e = false -> report_ok e = true ->
  last_stable e = 0 \/ last_stable e = 2 ->
  rotary_encoder_get_state g2 = (last_stable e + 2) mod 4 ->
  (rotary_encoder_get_state g1 = (last_stable e + 1) mod 4 ->
   deliver half_period_irq [g1; g2] e =
   Returned tt
     (set_last_stable (rotary_encoder_get_state g2)
        (after_report (set_dir (-1) e)))) /\
  (rotary_encoder_get_state g1 = (last_stable e + 3) mod 4 ->
   deliver half_period_irq [g1; g2] e =
   Returned tt
     (set_last_stable (rotary_encoder_get_state g2)
        (after_report (set_dir 1 e)))).
Proof.
  intros Hm Hok Hls H2.
  rewrite deliver_half_fold by assumption. cbn [fold_left].
  rewrite H2.
  split; intros H1; rewrite H1; clear H1 H2; enc e;
    destruct Hls; subst; reflexivity.
Qed.

Lemma half_period_sense_witness :
  deliver half_period_irq [[0; 1]; [1; 1]] relative_encoder =
  Returned tt
    (set_last_stable (rotary_encoder_get_state [1; 1])
       (after_report (set_dir (-1) relative_encoder))).
Proof.
  assert (Hls : last_stable relative_encoder = 0 \/
                last_stable relative_encoder = 2) by (left; reflexivity).
  exact (proj1 (half_period_sense relative_encoder [0; 1] [1; 1]
                  eq_refl eq_refl Hls eq_refl) eq_refl).
Defined.

(** X17: the three quadrature decoders do not agree on the sign of a
    rotation. For one and the same turn, the decoded state stepping up
    0, 1, 2, 3 and back to 0 from an encoder at rest on a relative axis,
    the full-period handler reports one event of value -1, the half-period
    handler two events of value -1, and the quarter-period handler four
    events of value +1. *)
Theorem rotation_sign_by_mode e g1 g2 g3 g0 :
  access_mutex e = false -> relative_axis e = true ->
  armed e = false -> last_stable e = 0 ->
  rotary_encoder_get_state g1 = 1 ->
  rotary_encoder_get_state g2 = 2 ->
  rotary_encoder_get_state g3 = 3 ->
  rotary_encoder_get_state g0 = 0 ->
  (exists e',
     deliver encoder_irq [g1; g2; g3; g0] e = Returned tt e' /\
     input e' = input e ++ [input_report_rel (axis e) (-1); input_sync]) /\
  (exists e',
     deliver half_period_irq [g1; g2; g3; g0] e = Returned tt e' /\
     input e' =
     input e ++ [input_report_rel (axis e) (-1); input_sync;
                 input_report_rel (axis e) (-1); input_sync]) /\
  (exists e',
     deliver quarter_period_irq [g1; g2; g3; g0] e = Returned tt e' /\
     input e' =
     input e ++ [input_report_rel (axis e) 1; input_sync;
                 input_report_rel (axis e) 1; input_sync;
                 input_report_rel (axis e) 1; input_sync;
                 input_report_rel (axis e) 1; input_sync]).
Proof.
  intros Hm Hrel Ha Hls H1 H2 H3 H0.
  assert (Hok : report_ok e = true) by (unfold report_ok; rewrite Hrel; reflexivity).
  split; [|split]; eexists.
  - split; [apply deliver_full_fold; assumption|].
    cbn [fold_left]. rewrite H1, H2, H3, H0. enc e.
    cbn. rewrite <- ?app_assoc. reflexivity.
  - split; [apply deliver_half_fold; assumption|].
    cbn [fold_left]. rewrite H1, H2, H3, H0. enc e.
    cbn. rewrite <- ?app_assoc. reflexivity.
  - split; [apply deliver_quarter_fold; assumption|].
    cbn [fold_left]. rewrite H1, H2, H3, H0. enc e.
    cbn. rewrite <- ?app_assoc. reflexivity.
Qed.

Lemma rotation_sign_by_mode_witness :
  (exists e',
     deliver encoder_irq [[0; 1]; [1; 1]; [1; 0]; [0; 0]] relative_encoder =
       Returned tt e' /\
     input e' = input relative_encoder ++
                [input_report_rel (axis relative_encoder) (-1); input_sync]) /\
  (exists e',
     deliver half_period_irq [[0; 1]; [1; 1]; [1; 0]; [0; 0]]
       relative_encoder = Returned tt e' /\
     input e' =
     input relative_encoder ++
     [input_report_rel (axis relative_encoder) (-1); input_sync;
      input_report_rel (axis relative_encoder) (-1); input_sync]) /\
  (exists e',
     deliver quarter_period_irq [[0; 1]; [1; 1]; [1; 0]; [0; 0]]
       relative_encoder = Returned tt e' /\
     input e' =
     input relative_encoder ++
     [input_report_rel (axis relative_encoder) 1; input_sync;
      input_report_rel (axis relative_encoder) 1; input_sync;
      input_report_rel (axis relative_encoder) 1; input_sync;
      input_report_rel (axis relative_encoder) 1; input_sync]).
Proof.
  exact (rotation_sign_by_mode relative_encoder [0; 1] [1; 1] [1; 0] [0; 0]
           eq_refl eq_refl eq_refl eq_refl eq_refl eq_refl eq_refl eq_refl).
Defined.

(** * Unit steps on a relative axis *)

Lemma unit_event_report e :
  relative_axis e = true -> dir e = 1 \/ dir e = -1 ->
  Forall (unit_event (axis e)) (input e) ->
  Forall (unit_event (axis e)) (input (after_report e)).
Proof.
  intros Hrel Hd Hin. unfold after_report, reported. rewrite Hrel.
  cbn [input set_input]. apply Forall_app. split; [assumption|].
  unfold unit_event.
  repeat (apply Forall_cons || apply Forall_nil);
    destruct Hd as [Hd | Hd]; rewrite ?Hd; auto.
Qed.

Lemma half_dir_unit ls s :
  ls mod 2 = 0 -> s mod 2 = 1 ->
  (ls - s + 1) mod 4 - 1 = 1 \/ (ls - s + 1) mod 4 - 1 = -1.
Proof. intros Hl Hs. Z.to_euclidean_division_equations. lia. Qed.

Lemma unit_step h g e :
  relative_axis e = true -> access_mutex e = false ->
  unit_direction h e ->
  Forall (unit_event (axis e)) (input e) ->
  exists e1,
    run_handler h g e = Returned tt e1 /\
    relative_axis e1 = true /\ access_mutex e1 = false /\
    axis e1 = axis e /\
    unit_direction h e1 /\
    Forall (unit_event (axis e)) (input e1).
Proof.
  intros Hrel Hm Hu Hin.
  assert (Hok : report_ok e = true)
    by (unfold report_ok; rewrite Hrel; reflexivity).
  destruct h; cbn [run_handler unit_direction] in *; [| | |contradiction].
  - rewrite irq_is_next by assumption. eexists. split; [reflexivity|].
    unfold full_period_next.
    destruct (get_state_cases g) as [H | [H | [H | H]]]; rewrite H;
      cbn [Z.eqb Pos.eqb orb]; destruct (armed e);
      repeat split;
      try (enc e; unfold after_report; cbn; assumption);
      try (enc e; unfold after_report; cbn; try reflexivity; auto; fail).
    apply (unit_event_report e Hrel Hu Hin).
  - destruct Hu as [Hd Hls].
    rewrite half_is_next by assumption. eexists. split; [reflexivity|].
    unfold half_period_next.
    destruct (Z.eqb_spec (Z.land (rotary_encoder_get_state g) 1) 0)
      as [Hev | Hodd]; cbn [negb].
    + destruct (Z.eqb_spec (rotary_encoder_get_state g) (last_stable e))
        as [Heq | Hne].
      * repeat split; assumption.
      * repeat split;
          try (enc e; unfold after_report; cbn; try reflexivity; auto; fail).
        -- cbn [last_stable set_last_stable]. apply even_sample_parity.
           assumption.
        -- apply (unit_event_report e Hrel Hd Hin).
    + repeat split; try (enc e; cbn; try reflexivity; auto; fail).
      cbn [dir set_dir]. apply half_dir_unit; [assumption|].
      apply odd_sample_parity. assumption.
  - rewrite quarter_is_next by assumption. eexists. split; [reflexivity|].
    unfold quarter_period_next.
    destruct (u32 (last_stable e + 1) mod 4 =? rotary_encoder_get_state g);
      [|destruct (last_stable e =? u32 (rotary_encoder_get_state g + 1) mod 4)];
      repeat split;
      try (enc e; unfold after_report; cbn; try reflexivity; auto; fail).
    + apply (unit_event_report (set_dir 1 e)); cbn; auto.
    + apply (unit_event_report (set_dir (-1) e)); cbn; auto.
Qed.

(** X18: on a relative axis every event of the quadrature handlers is a
    single step, +1 or -1, provided the stored direction is a unit to begin
    with and, in half-period mode, the reference state is even; the
    quarter-period handler needs neither. The property holds over any run
    of samples, all of which return. *)
Theorem quadrature_reports_unit_steps h samples e :
  relative_axis e = true -> access_mutex e = false ->
  unit_direction h e ->
  Forall (unit_event (axis e)) (input e) ->
  exists e',
    deliver h samples e = Returned tt e' /\
    unit_direction h e' /\
    Forall (unit_event (axis e)) (input e').
Proof.
  revert e. induction samples as [|g samples IH]; intros e Hrel Hm Hu Hin.
  - exists e. repeat split; assumption.
  - destruct (unit_step h g e Hrel Hm Hu Hin)
      as [e1 (Hrun & Hrel1 & Hm1 & Hax & Hu1 & Hin1)].
    rewrite <- Hax in Hin1.
    destruct (IH e1 Hrel1 Hm1 Hu1 Hin1) as [e' (Hrun' & Hu' & Hin')].
    exists e'. rewrite (deliver_cons h g samples e e1 Hrun).
    rewrite Hax in Hin'. repeat split; assumption.
Qed.

Lemma quadrature_reports_unit_steps_witness :
  exists e',
    deliver quarter_period_irq [[0; 1]; [1; 0]; [1; 1]; [0; 1]]
      relative_encoder = Returned tt e' /\
    unit_direction quarter_period_irq e' /\
    Forall (unit_event (axis relative_encoder)) (input e').
Proof.
  exact (quadrature_reports_unit_steps quarter_period_irq
           [[0; 1]; [1; 0]; [1; 1]; [0; 1]] relative_encoder
           eq_refl eq_refl I (Forall_nil _)).
Defined.

(** * Events against the declared capability *)

Lemma declared_report_ok e : declared_state e -> report_ok e = true.
Proof.
  intros (_ & Hp & _). unfold report_ok.
  destruct (relative_axis e); [reflexivity|].
  specialize (Hp eq_refl). unfold position_in_range in Hp.
  destruct (rollover e); [|reflexivity]. cbn.
  destruct (Z.eqb_spec (steps e) 0); [lia|reflexivity].
Qed.

Lemma report_pos_in_range e :
  relative_axis e = false -> steps e < 2 ^ 31 -> position_in_range e ->
  position_in_range (set_pos (report_pos e) e) /\
  0 <= report_pos e <= steps e.
Proof.
  unfold position_in_range. cbn [rollover steps pos set_pos].
  intros Hrel Hn Hp. destruct (rollover e) eqn:Hroll.
  - destruct Hp as [Hs Hp].
    assert (0 <= report_pos e < steps e).
    { unfold report_pos. rewrite Hroll. apply Z.mod_pos_bound. assumption. }
    lia.
  - rewrite report_pos_clamp; try assumption.
    + destruct (dir e <? 0); lia.
    + change (2 ^ 31) with 2147483648 in Hn.
      change (2 ^ 32) with 4294967296. lia.
Qed.

Lemma declared_after_report e :
  declared_state e ->
  declared_state (after_report e) /\
  rotary_encoder_setup_input_params (after_report e) =
  rotary_encoder_setup_input_params e.
Proof.
  intros (Hn & Hp & Hin).
  unfold declared_state, after_report, reported,
    rotary_encoder_setup_input_params in *.
  destruct (relative_axis e) eqn:Hrel;
    cbn [steps relative_axis axis input set_input set_pos].
  - rewrite Hrel. split; [|reflexivity].
    split; [assumption|]. split; [discriminate|].
    apply Forall_app. split; [assumption|].
    repeat (apply Forall_cons || apply Forall_nil); cbn; auto.
  - rewrite Hrel. split; [|reflexivity].
    destruct (report_pos_in_range e Hrel Hn (Hp eq_refl)) as [Hr Hb].
    split; [assumption|]. split; [intros _; exact Hr|].
    apply Forall_app. split; [assumption|].
    repeat (apply Forall_cons || apply Forall_nil); cbn; auto.
    split; [reflexivity|].
    rewrite !s32_small; lia.
Qed.

Lemma declared_step h g e :
  h <> absolute_encoder_irq ->
  access_mutex e = false -> declared_state e ->
  exists e1,
    run_handler h g e = Returned tt e1 /\
    access_mutex e1 = false /\
    declared_state e1 /\
    rotary_encoder_setup_input_params e1 =
    rotary_encoder_setup_input_params e.
Proof.
  intros Hh Hm Hd.
  pose proof (declared_report_ok e Hd) as Hok.
  destruct (declared_after_report e Hd) as [Hd0 Hs0].
  destruct (declared_after_report (set_dir 1 e) Hd) as [Hd1 Hs1].
  destruct (declared_after_report (set_dir (-1) e) Hd) as [Hdm Hsm].
  assert (Hma : forall x, access_mutex (after_report x) = access_mutex x)
    by (intros x; apply after_report_mutex).
  destruct h; cbn [run_handler]; [| | |congruence].
  - rewrite irq_is_next by assumption. eexists. split; [reflexivity|].
    unfold full_period_next.
    destruct (rotary_encoder_get_state g =? 0);
      [|destruct ((rotary_encoder_get_state g =? 1) ||
                  (rotary_encoder_get_state g =? 3));
        [|destruct (rotary_encoder_get_state g =? 2)]];
      destruct (armed e); (split; [|split]);
      first [ exact Hm | exact Hd | exact Hd0 | exact Hs0 | reflexivity
            | exact (eq_trans (Hma e) Hm) ].
  - rewrite half_is_next by assumption. eexists. split; [reflexivity|].
    unfold half_period_next.
    destruct (negb (Z.land (rotary_encoder_get_state g) 1 =? 0));
      [|destruct (rotary_encoder_get_state g =? last_stable e)];
      (split; [|split]);
      first [ exact Hm | exact Hd | exact Hd0 | exact Hs0 | reflexivity
            | exact (eq_trans (Hma e) Hm) ].
  - rewrite quarter_is_next by assumption. eexists. split; [reflexivity|].
    unfold quarter_period_next.
    destruct (u32 (last_stable e + 1) mod 4 =? rotary_encoder_get_state g);
      [|destruct (last_stable e =? u32 (rotary_encoder_get_state g + 1) mod 4)];
      (split; [|split]);
      first [ exact Hm | exact Hd | exact Hd1 | exact Hs1 | exact Hdm
            | exact Hsm | reflexivity
            | exact (eq_trans (Hma (set_dir 1 e)) Hm)
            | exact (eq_trans (Hma (set_dir (-1) e)) Hm) ].
Qed.

(** X19: the quadrature handlers only send what
    [rotary_encoder_setup_input_params] declared. If [steps] fits an
    [int], the position starts in range and the events sent so far are
    covered, then over any run of samples every handler returns, the
    position stays in range ([0, steps) with rollover, [0, steps]
    without) and every event is on the declared axis, an absolute value
    lying inside the declared range [0, steps]; whatever the stored
    direction. *)
Theorem quadrature_events_declared h samples e :
  h <> absolute_encoder_irq ->
  access_mutex e = false -> declared_state e ->
  exists e',
    deliver h samples e = Returned tt e' /\
    declared_state e' /\
    rotary_encoder_setup_input_params e' =
    rotary_encoder_setup_input_params e.
Proof.
  intros Hh. revert e. induction samples as [|g samples IH]; intros e Hm Hd.
  - exists e. split; [reflexivity|]. split; [assumption|reflexivity].
  - destruct (declared_step h g e Hh Hm Hd) as [e1 (Hrun & Hm1 & Hd1 & Hs1)].
    destruct (IH e1 Hm1 Hd1) as [e' (Hrun' & Hd' & Hs')].
    exists e'. rewrite (deliver_cons h g samples e e1 Hrun).
    split; [assumption|]. split; [assumption|congruence].
Qed.

Lemma quadrature_events_declared_witness :
  exists e',
    deliver half_period_irq [[0; 1]; [1; 1]; [1; 0]; [0; 0]]
      (abs_axis_encoder 24 true 0 0) = Returned tt e' /\
    declared_state e' /\
    rotary_encoder_setup_input_params e' =
    rotary_encoder_setup_input_params (abs_axis_encoder 24 true 0 0).
Proof.
  assert (Hh : half_period_irq <> absolute_encoder_irq) by discriminate.
  assert (Hd : declared_state (abs_axis_encoder 24 true 0 0)).
  { split; [cbn; lia|]. split; [intros _; cbn; lia|apply Forall_nil]. }
  exact (quadrature_events_declared half_period_irq
           [[0; 1]; [1; 1]; [1; 0]; [0; 0]] (abs_axis_encoder 24 true 0 0)
           Hh eq_refl Hd).
Defined.

(** X20: the absolute decoder reports the raw line pattern whatever was
    declared. With at most 31 lines reading 0 or 1 and [steps] fitting an
    [int], the event a poll sends for a changed pattern is covered by the
    declared capability exactly when the axis is absolute and the raw state
    does not exceed [steps]. *)
Theorem poll_event_declared_iff e g :
  boolean_levels g -> (length g <= 31)%nat ->
  0 <= steps e < 2 ^ 31 ->
  rotary_encoder_get_gpios_state g <> last_stable e ->
  Forall (event_declared (rotary_encoder_setup_input_params e)) (input e) ->
  (Forall (event_declared (rotary_encoder_setup_input_params e))
     (input (state_of (rotary_encoder_poll_gpios g e))) <->
   relative_axis e = false /\ rotary_encoder_get_gpios_state g <= steps e).
Proof.
  intros Hb Hlen Hn Hne Hin.
  rewrite poll_gpios_step. cbn [state_of].
  destruct (Z.eqb_spec (rotary_encoder_get_gpios_state g) (last_stable e))
    as [Heq | _]; [contradiction|].
  cbn [input set_last_stable set_input].
  assert (Hs : 0 <= rotary_encoder_get_gpios_state g < 2 ^ 31).
  { rewrite get_gpios_state_small by (assumption || lia).
    pose proof (binary_value_bound g Hb) as B.
    assert (2 ^ Z.of_nat (length g) <= 2 ^ 31)
      by (apply Z.pow_le_mono_r; lia).
    lia. }
  unfold rotary_encoder_setup_input_params in *.
  split.
  - intros Hall. apply Forall_app in Hall. destruct Hall as [_ Hev].
    inversion Hev as [|? ? Hd _]; subst.
    destruct (relative_axis e); cbn in Hd; [contradiction|].
    rewrite !s32_small in Hd by lia. split; [reflexivity|lia].
  - intros [Hrel Hle]. rewrite Hrel in *.
    apply Forall_app. split; [assumption|].
    repeat (apply Forall_cons || apply Forall_nil); cbn; auto.
    rewrite !s32_small by lia. split; [reflexivity|lia].
Qed.

Lemma poll_event_declared_iff_witness :
  Forall (event_declared
            (rotary_encoder_setup_input_params (abs_axis_encoder 4 false 0 0)))
    (input (state_of (rotary_encoder_poll_gpios [1; 1; 1]
                        (abs_axis_encoder 4 false 0 0)))) <->
  relative_axis (abs_axis_encoder 4 false 0 0) = false /\
  rotary_encoder_get_gpios_state [1; 1; 1] <= steps (abs_axis_encoder 4 false 0 0).
Proof.
  assert (B : boolean_levels [1; 1; 1])
    by (repeat (apply Forall_cons; [lia|]); apply Forall_nil).
  assert (L : (length [1; 1; 1] <= 31)%nat) by (cbn; lia).
  assert (N : 0 <= steps (abs_axis_encoder 4 false 0 0) < 2 ^ 31)
    by (cbn; lia).
  assert (D : rotary_encoder_get_gpios_state [1; 1; 1] <>
              last_stable (abs_axis_encoder 4 false 0 0))
    by (vm_compute; discriminate).
  exact (poll_event_declared_iff (abs_axis_encoder 4 false 0 0) [1; 1; 1]
           B L N D (Forall_nil _)).
Defined.

(** * Probe: what a successful probe leaves, and how it fails *)

Lemma probe_irqs_polled pdev e :
  forall n i,
    probe_irqs pdev e n i = Irq_polled ->
    poll_mode_support pdev = true /\ absolute_encoder e = true /\
    exists j, (i <= j < i + n)%nat /\ gpiod_to_irq pdev j < 0.
Proof.
  induction n as [|n IH]; intros i H; cbn [probe_irqs] in H; [discriminate|].
  destruct (poll_mode_support pdev) eqn:Hp; cbn [andb] in H.
  - destruct (Z.ltb_spec (gpiod_to_irq pdev i) 0) as [Hlt | Hge];
      cbn [andb] in H.
    + destruct (absolute_encoder e) eqn:Ha.
      * repeat split. exists i. split; [lia|assumption].
      * destruct (negb (request_threaded_irq pdev i =? 0)); [discriminate|].
        destruct (IH (S i) H) as (_ & Hf & _). discriminate.
    + destruct (negb (request_threaded_irq pdev i =? 0)); [discriminate|].
      destruct (IH (S i) H) as (_ & Ha & j & Hj & Hneg).
      repeat split; try assumption. exists j. split; [lia|assumption].
  - destruct (negb (request_threaded_irq pdev i =? 0)); [discriminate|].
    destruct (IH (S i) H) as (Hf & _). discriminate.
Qed.

Lemma probe_handler_fields pdev gpios e h :
  probe_handler pdev (probe_properties pdev) (probe_steps_per_period pdev)
    gpios = inr (e, h) ->
  access_mutex e = false /\ input e = [] /\ pos e = 0 /\
  armed e = false /\ dir e = 0 /\
  steps e = read_u32 (prop_steps pdev) 0 /\
  axis e = read_u32 (prop_axis pdev) 0 /\
  relative_axis e = prop_relative_axis pdev /\
  rollover e = prop_rollover pdev /\
  absolute_encoder e = prop_absolute_encoder pdev /\
  (h = absolute_encoder_irq <-> prop_absolute_encoder pdev = true) /\
  last_stable e =
    match h with
    | quarter_period_irq | half_period_irq => rotary_encoder_get_state gpios
    | _ => 0
    end.
Proof.
  unfold probe_handler. cbn [absolute_encoder set_absolute_encoder].
  destruct (prop_absolute_encoder pdev) eqn:Habs.
  - intros H. inversion H; subst. cbn. repeat split; auto.
  - destruct (_ =? 4); [|destruct (_ =? 2); [|destruct (_ =? 1)]];
      intros H; inversion H; subst; cbn;
      repeat split; auto; discriminate.
Qed.

(** X21: the encoder a successful probe leaves. There are at least two
    lines; the mutex is free, nothing has been reported, the position is
    0, the encoder is unarmed with direction 0; [steps] and [axis] are the
    properties, or 0 when absent; the absolute handler is chosen exactly
    when 'absolute-encoder' is set; the reference state is the state
    sampled at probe time for the half- and quarter-period handlers and 0
    for the other two; poll mode is only entered for an absolute encoder
    with poll support and a line without interrupt. *)
Theorem probe_initial_encoder pdev e h polled :
  rotary_encoder_probe pdev = Probe_ok e h polled ->
  exists gpios,
    gpiod_get_array pdev = inr gpios /\ (2 <= length gpios)%nat /\
    access_mutex e = false /\ input e = [] /\ pos e = 0 /\
    armed e = false /\ dir e = 0 /\
    steps e = read_u32 (prop_steps pdev) 0 /\
    axis e = read_u32 (prop_axis pdev) 0 /\
    relative_axis e = prop_relative_axis pdev /\
    rollover e = prop_rollover pdev /\
    absolute_encoder e = prop_absolute_encoder pdev /\
    (h = absolute_encoder_irq <-> prop_absolute_encoder pdev = true) /\
    last_stable e =
      match h with
      | quarter_period_irq | half_period_irq => rotary_encoder_get_state gpios
      | _ => 0
      end /\
    (polled = true ->
     prop_absolute_encoder pdev = true /\ poll_mode_support pdev = true /\
     exists j, (j < length gpios)%nat /\ gpiod_to_irq pdev j < 0).
Proof.
  unfold rotary_encoder_probe.
  destruct (kzalloc_encoder pdev); cbn [negb]; [|discriminate].
  destruct (gpiod_get_array pdev) as [err | gpios]; [discriminate|].
  destruct (Nat.ltb_spec (length gpios) 2) as [Hlt | Hge]; [discriminate|].
  destruct (probe_handler pdev (probe_properties pdev)
              (probe_steps_per_period pdev) gpios)
    as [err | [e0 h0]] eqn:Hh; [discriminate|].
  destruct (kzalloc_irq pdev); cbn [negb]; [|discriminate].
  pose proof (probe_handler_fields pdev gpios e0 h0 Hh) as Hf.
  destruct (probe_irqs pdev e0 (length gpios) 0) eqn:Hirq; [discriminate| |].
  - intros H. inversion H; subst. exists gpios.
    destruct (probe_irqs_polled pdev e (length gpios) 0 Hirq)
      as (Hp & Ha & j & Hj & Hneg).
    decompose [and] Hf.
    repeat (split; [first [reflexivity | assumption]|]).
    intros _. split; [congruence|]. split; [assumption|].
    exists j. split; [lia|assumption].
  - destruct (allocate_device pdev); cbn [negb]; [|discriminate].
    destruct (negb (register_device pdev =? 0)); [discriminate|].
    intros H. inversion H; subst. exists gpios.
    decompose [and] Hf.
    repeat (split; [first [reflexivity | assumption]|]).
    discriminate.
Qed.

Lemma probe_initial_encoder_witness :
  exists gpios,
    gpiod_get_array (example_device (Some 2) false [1; 0]) = inr gpios /\
    (2 <= length gpios)%nat /\
    access_mutex (set_last_stable 3 (probe_properties
                    (example_device (Some 2) false [1; 0]))) = false.
Proof.
  destruct (probe_initial_encoder (example_device (Some 2) false [1; 0])
              (set_last_stable 3
                 (probe_properties (example_device (Some 2) false [1; 0])))
              half_period_irq false eq_refl)
    as [gpios (Hg & Hlen & Hm & _)].
  exists gpios. split; [exact Hg|]. split; [exact Hlen|exact Hm].
Defined.

Lemma probe_irqs_first_error pdev e err :
  poll_mode_support pdev = false \/ absolute_encoder e = false ->
  err <> 0 ->
  forall k i,
    (forall j, (i <= j < i + k)%nat -> request_threaded_irq pdev j = 0) ->
    request_threaded_irq pdev (i + k) = err ->
    forall n, (k < n)%nat ->
    probe_irqs pdev e n i = Irq_error err.
Proof.
  intros Hnp Herr.
  assert (Hc : forall i,
             poll_mode_support pdev &&
             ((gpiod_to_irq pdev i <? 0) && absolute_encoder e) = false).
  { intros i. destruct Hnp as [-> | ->]; [reflexivity|].
    rewrite andb_false_r, andb_false_r. reflexivity. }
  induction k as [|k IH]; intros i Hreq Hfail n Hn.
  - destruct n as [|n]; [lia|]. cbn [probe_irqs]. rewrite Hc.
    rewrite Nat.add_0_r in Hfail. rewrite Hfail.
    destruct (Z.eqb_spec err 0); [contradiction|reflexivity].
  - destruct n as [|n]; [lia|]. cbn [probe_irqs]. rewrite Hc.
    rewrite (Hreq i) by lia. cbn.
    apply IH; [|rewrite <- Hfail; f_equal; lia|lia].
    intros j Hj. apply Hreq. lia.
Qed.

(** X22: how the probe fails. A failed line acquisition returns its own
    error code. Outside poll mode, the error of the first interrupt
    request that fails is returned, the lines after it are not requested.
    When every request succeeds, a failed registration of the input device
    returns its error code. *)
Theorem probe_returns_first_error pdev :
  kzalloc_encoder pdev = true ->
  (forall err,
     gpiod_get_array pdev = inl err ->
     rotary_encoder_probe pdev = Probe_error err) /\
  (forall gpios e h k err,
     gpiod_get_array pdev = inr gpios -> (2 <= length gpios)%nat ->
     probe_handler pdev (probe_properties pdev)
       (probe_steps_per_period pdev) gpios = inr (e, h) ->
     kzalloc_irq pdev = true ->
     poll_mode_support pdev = false \/ prop_absolute_encoder pdev = false ->
     (k < length gpios)%nat ->
     (forall j, (j < k)%nat -> request_threaded_irq pdev j = 0) ->
     request_threaded_irq pdev k = err -> err <> 0 ->
     rotary_encoder_probe pdev = Probe_error err) /\
  (forall gpios e h err,
     gpiod_get_array pdev = inr gpios -> (2 <= length gpios)%nat ->
     probe_handler pdev (probe_properties pdev)
       (probe_steps_per_period pdev) gpios = inr (e, h) ->
     kzalloc_irq pdev = true ->
     poll_mode_support pdev = false \/ prop_absolute_encoder pdev = false ->
     (forall j, (j < length gpios)%nat -> request_threaded_irq pdev j = 0) ->
     allocate_device pdev = true ->
     register_device pdev = err -> err <> 0 ->
     rotary_encoder_probe pdev = Probe_error err).
Proof.
  intros Hk. unfold rotary_encoder_probe. rewrite Hk. cbn [negb].
  split; [|split].
  - intros err Hg. rewrite Hg. reflexivity.
  - intros gpios e h k err Hg Hlen Hh Hki Hnp Hkn Hreq Hfail Herr.
    rewrite Hg. destruct (Nat.ltb_spec (length gpios) 2); [lia|].
    rewrite Hh, Hki. cbn [negb].
    destruct (probe_handler_fields pdev gpios e h Hh)
      as (_ & _ & _ & _ & _ & _ & _ & _ & _ & Ha & _).
    assert (Hnp' : poll_mode_support pdev = false \/
                   absolute_encoder e = false) by (rewrite Ha; assumption).
    rewrite (probe_irqs_first_error pdev e err Hnp' Herr k 0%nat);
      [reflexivity | | assumption | assumption].
    intros j Hj. apply Hreq. lia.
  - intros gpios e h err Hg Hlen Hh Hki Hnp Hreq Hal Hreg Herr.
    rewrite Hg. destruct (Nat.ltb_spec (length gpios) 2); [lia|].
    rewrite Hh, Hki. cbn [negb].
    destruct (probe_handler_fields pdev gpios e h Hh)
      as (_ & _ & _ & _ & _ & _ & _ & _ & _ & Ha & _).
    assert (Hirq : probe_irqs pdev e (length gpios) 0 = Irq_requested).
    { assert (Hc : forall i,
                 poll_mode_support pdev &&
                 ((gpiod_to_irq pdev i <? 0) && absolute_encoder e) = false).
      { intros i. rewrite Ha. destruct Hnp as [-> | ->]; [reflexivity|].
        rewrite andb_false_r, andb_false_r. reflexivity. }
      assert (Hgen : forall n i,
                 (i + n <= length gpios)%nat ->
                 probe_irqs pdev e n i = Irq_requested).
      { induction n as [|n IH]; intros i Hi; cbn [probe_irqs];
          [reflexivity|].
        rewrite Hc, (Hreq i) by lia. cbn. apply IH. lia. }
      apply Hgen. lia. }
    rewrite Hirq, Hal, Hreg. cbn [negb].
    destruct (Z.eqb_spec err 0); [contradiction|reflexivity].
Qed.

Lemma probe_returns_first_error_witness :
  rotary_encoder_probe (failing_irq_device (-16)) = Probe_error (-16).
Proof.
  assert (Hlen : (2 <= length [0; 0])%nat) by (cbn; lia).
  assert (Hk : (1 < length [0; 0])%nat) by (cbn; lia).
  assert (Hreq : forall j, (j < 1)%nat ->
                           request_threaded_irq (failing_irq_device (-16)) j = 0).
  { intros j Hj. destruct j; [reflexivity|lia]. }
  assert (Herr : -16 <> 0) by discriminate.
  exact (proj1 (proj2 (probe_returns_first_error (failing_irq_device (-16))
                         eq_refl))
           [0; 0] (probe_properties (failing_irq_device (-16))) encoder_irq
           1%nat (-16) eq_refl Hlen eq_refl eq_refl (or_introl eq_refl)
           Hk Hreq eq_refl Herr).
Defined.

Lemma probe_handler_by_ratio pdev gpios :
  prop_absolute_encoder pdev = false ->
  probe_handler pdev (probe_properties pdev) (probe_steps_per_period pdev)
    gpios =
  let e := set_absolute_encoder false (probe_properties pdev) in
  let ratio := Z.shiftr (probe_steps_per_period pdev)
                 (Z.of_nat (length gpios) - 2) in
  if ratio =? 4 then
    inr (set_last_stable (rotary_encoder_get_state gpios) e,
         quarter_period_irq)
  else if ratio =? 2 then
    inr (set_last_stable (rotary_encoder_get_state gpios) e, half_period_irq)
  else if ratio =? 1 then inr (e, encoder_irq)
  else inl (- EINVAL).
Proof.
  intros Habs. unfold probe_handler. rewrite Habs. reflexivity.
Qed.

Lemma probe_by_ratio pdev gpios :
  kzalloc_encoder pdev = true ->
  gpiod_get_array pdev = inr gpios ->
  (2 <= length gpios)%nat ->
  prop_absolute_encoder pdev = false ->
  forall v,
    Z.shiftr (probe_steps_per_period pdev) (Z.of_nat (length gpios) - 2) = v ->
    (acquires pdev (length gpios) ->
     (v = 4 ->
      exists e, rotary_encoder_probe pdev = Probe_ok e quarter_period_irq false) /\
     (v = 2 ->
      exists e, rotary_encoder_probe pdev = Probe_ok e half_period_irq false) /\
     (v = 1 ->
      exists e, rotary_encoder_probe pdev = Probe_ok e encoder_irq false)) /\
    (v <> 4 -> v <> 2 -> v <> 1 ->
     rotary_encoder_probe pdev = Probe_error (- EINVAL)).
Proof.
  intros Hk Hg Hlen Habs v Hv.
  pose proof (probe_handler_by_ratio pdev gpios Habs) as Hh.
  cbv zeta in Hh. rewrite Hv in Hh.
  split.
  - intros Hacq.
    assert (Hsel : forall e h,
               probe_handler pdev (probe_properties pdev)
                 (probe_steps_per_period pdev) gpios = inr (e, h) ->
               absolute_encoder e = false ->
               exists e', rotary_encoder_probe pdev = Probe_ok e' h false).
    { intros e h He Ha.
      destruct (probe_past_handler pdev gpios e h Hk Hg Hlen He Hacq)
        as [polled [Hp Hpolled]].
      rewrite (Hpolled Ha) in Hp. eauto. }
    split; [|split]; intros ->; cbn [Z.eqb Pos.eqb] in Hh;
      apply (Hsel _ _ Hh); reflexivity.
  - intros H4 H2 H1. unfold rotary_encoder_probe. rewrite Hk, Hg. cbn [negb].
    destruct (Nat.ltb_spec (length gpios) 2) as [Hlt | _]; [lia|].
    apply Z.eqb_neq in H4, H2, H1. rewrite H4, H2, H1 in Hh.
    rewrite Hh. reflexivity.
Qed.

Lemma div_pow2_interval (x p q : Z) :
  0 < p -> (x / p = q <-> q * p <= x < (q + 1) * p).
Proof.
  intros Hp. split.
  - intros <-. pose proof (Z.mul_div_le x p Hp).
    pose proof (Z.mul_succ_div_gt x p Hp). lia.
  - intros H. symmetry. apply (Z.div_unique x p q (x - q * p)); lia.
Qed.

(** X23: which values of 'steps-per-period' a quadrature encoder with
    [n] lines accepts. With [p = 2^(n-2)]: values in [p, 2p) select the
    full-period handler, values in [2p, 3p) the half-period handler,
    values in [4p, 5p) the quarter-period handler, and every other value
    fails the probe with -EINVAL. For two lines these are 1, 2 and 4. *)
Theorem probe_steps_per_period_intervals pdev gpios :
  kzalloc_encoder pdev = true ->
  gpiod_get_array pdev = inr gpios ->
  (2 <= length gpios < 34)%nat ->
  prop_absolute_encoder pdev = false ->
  forall spp p,
    spp = probe_steps_per_period pdev ->
    p = 2 ^ (Z.of_nat (length gpios) - 2) ->
    (acquires pdev (length gpios) ->
     (p <= spp < 2 * p ->
      exists e, rotary_encoder_probe pdev = Probe_ok e encoder_irq false) /\
     (2 * p <= spp < 3 * p ->
      exists e, rotary_encoder_probe pdev = Probe_ok e half_period_irq false) /\
     (4 * p <= spp < 5 * p ->
      exists e,
        rotary_encoder_probe pdev = Probe_ok e quarter_period_irq false)) /\
    (spp < p \/ 3 * p <= spp < 4 * p \/ 5 * p <= spp ->
     rotary_encoder_probe pdev = Probe_error (- EINVAL)).
Proof.
  intros Hk Hg [Hlen _] Habs spp p Hspp Hp.
  assert (Hpos : 0 < p) by (subst p; apply Z.pow_pos_nonneg; lia).
  assert (Hr : Z.shiftr (probe_steps_per_period pdev)
                 (Z.of_nat (length gpios) - 2) = spp / p).
  { rewrite Z.shiftr_div_pow2 by lia. subst. reflexivity. }
  destruct (probe_by_ratio pdev gpios Hk Hg Hlen Habs (spp / p) Hr)
    as [Hok Hbad].
  split.
  - intros Hacq. destruct (Hok Hacq) as (H4 & H2 & H1).
    split; [|split]; intros Hi.
    + apply H1. apply div_pow2_interval; lia.
    + apply H2. apply div_pow2_interval; lia.
    + apply H4. apply div_pow2_interval; lia.
  - intros Hi.
    apply Hbad; intros Hq; apply div_pow2_interval in Hq; lia.
Qed.

Lemma probe_steps_per_period_intervals_witness :
  (exists e,
     rotary_encoder_probe (example_device (Some 5) false [0; 0; 0]) =
     Probe_ok e half_period_irq false) /\
  rotary_encoder_probe (example_device (Some 6) false [0; 0; 0]) =
    Probe_error (- EINVAL).
Proof.
  assert (H3 : (2 <= length [0; 0; 0] < 34)%nat) by (cbn; lia).
  split.
  - apply (proj1 (probe_steps_per_period_intervals
                    (example_device (Some 5) false [0; 0; 0]) [0; 0; 0]
                    eq_refl eq_refl H3 eq_refl 5 2 eq_refl eq_refl)
             (example_device_acquires _ _ _ _)).
    lia.
  - apply (proj2 (probe_steps_per_period_intervals
                    (example_device (Some 6) false [0; 0; 0]) [0; 0; 0]
                    eq_refl eq_refl H3 eq_refl 6 2 eq_refl eq_refl)).
    lia.
Defined.

(** X24: the deprecated 'half-period' property. For a two-line
    quadrature encoder without 'steps-per-period', 'half-period' selects
    the half-period handler and its absence the full-period handler; when
    'steps-per-period' is present, 'half-period' makes no difference to
    the probe. *)
Theorem probe_half_period_fallback pdev gpios :
  kzalloc_encoder pdev = true ->
  gpiod_get_array pdev = inr gpios ->
  length gpios = 2%nat ->
  prop_absolute_encoder pdev = false ->
  acquires pdev 2 ->
  (prop_steps_per_period pdev = None ->
   exists e,
     rotary_encoder_probe pdev =
     Probe_ok e (if prop_half_period pdev then half_period_irq
                 else encoder_irq) false) /\
  (forall v b,
     rotary_encoder_probe (with_steps_per_period (Some v) b pdev) =
     rotary_encoder_probe (with_steps_per_period (Some v) (negb b) pdev)).
Proof.
  intros Hk Hg Hlen Habs Hacq. split.
  - intros Hnone.
    assert (Hl2 : (2 <= length gpios)%nat) by lia.
    assert (Hv : Z.shiftr (probe_steps_per_period pdev)
                   (Z.of_nat (length gpios) - 2) =
                 if prop_half_period pdev then 2 else 1).
    { unfold probe_steps_per_period. rewrite Hnone, Hlen.
      destruct (prop_half_period pdev); reflexivity. }
    rewrite <- Hlen in Hacq.
    destruct (probe_by_ratio pdev gpios Hk Hg Hl2 Habs _ Hv) as [Hok _].
    destruct (Hok Hacq) as (_ & H2 & H1).
    destruct (prop_half_period pdev); [apply H2|apply H1]; reflexivity.
  - intros v b. unfold rotary_encoder_probe, probe_handler.
    cbn [kzalloc_encoder gpiod_get_array with_steps_per_period
         prop_absolute_encoder kzalloc_irq allocate_device register_device].
    rewrite Hk, Hg. cbn [negb].
    destruct (length gpios <? 2)%nat; [reflexivity|].
    change (probe_steps_per_period (with_steps_per_period (Some v) b pdev))
      with v.
    change (probe_steps_per_period
              (with_steps_per_period (Some v) (negb b) pdev)) with v.
    change (probe_properties (with_steps_per_period (Some v) b pdev))
      with (probe_properties pdev).
    change (probe_properties (with_steps_per_period (Some v) (negb b) pdev))
      with (probe_properties pdev).
    destruct (if absolute_encoder
                   (set_absolute_encoder (prop_absolute_encoder pdev)
                      (probe_properties pdev))
              then _ else _) as [err | [e h]]; [reflexivity|].
    rewrite !probe_irqs_steps_per_period. reflexivity.
Qed.

Lemma probe_half_period_fallback_witness :
  exists e,
    rotary_encoder_probe
      (with_steps_per_period None true (example_device None false [0; 0])) =
    Probe_ok e
      (if prop_half_period
            (with_steps_per_period None true
               (example_device None false [0; 0]))
       then half_period_irq else encoder_irq) false.
Proof.
  assert (Hacq : acquires
                   (with_steps_per_period None true
                      (example_device None false [0; 0])) 2)
    by (repeat split).
  exact (proj1 (probe_half_period_fallback
                  (with_steps_per_period None true
                     (example_device None false [0; 0])) [0; 0]
                  eq_refl eq_refl eq_refl eq_refl Hacq) eq_refl).
Defined.

Lemma probe_irqs_poll_at pdev e :
  poll_mode_support pdev = true -> absolute_encoder e = true ->
  forall k i,
    (forall j, (i <= j < i + k)%nat ->
               0 <= gpiod_to_irq pdev j /\ request_threaded_irq pdev j = 0) ->
    gpiod_to_irq pdev (i + k) < 0 ->
    forall n, (k < n)%nat ->
    probe_irqs pdev e n i =
    if negb (rotary_encoder_register_poll_device pdev =? 0)
    then Irq_error (rotary_encoder_register_poll_device pdev)
    else Irq_polled.
Proof.
  intros Hp Ha. induction k as [|k IH]; intros i Hreq Hneg n Hn.
  - destruct n as [|n]; [lia|]. cbn [probe_irqs].
    rewrite Nat.add_0_r in Hneg. rewrite Hp, Ha.
    destruct (Z.ltb_spec (gpiod_to_irq pdev i) 0); [reflexivity|lia].
  - destruct n as [|n]; [lia|]. cbn [probe_irqs].
    destruct (Hreq i) as [Hge Hr]; [lia|].
    rewrite Hp, Ha.
    destruct (Z.ltb_spec (gpiod_to_irq pdev i) 0); [lia|].
    cbn [andb]. rewrite Hr. cbn.
    apply IH;
      [|replace (S i + k)%nat with (i + S k)%nat by lia; assumption|lia].
    intros j Hj. apply Hreq. lia.
Qed.

(** X25: the poll fallback. For an absolute encoder built with poll
    support, the first line without an interrupt (the lines before it
    having been requested) switches the probe to poll mode: the probe
    succeeds as soon as the polled device registers, without requesting
    the remaining lines or allocating the plain input device, and fails
    with the registration's error code otherwise (-ENOMEM when the polled
    device cannot be allocated). *)
Theorem probe_poll_fallback pdev gpios k :
  kzalloc_encoder pdev = true ->
  gpiod_get_array pdev = inr gpios -> (2 <= length gpios)%nat ->
  prop_absolute_encoder pdev = true ->
  kzalloc_irq pdev = true ->
  poll_mode_support pdev = true ->
  (k < length gpios)%nat ->
  (forall j, (j < k)%nat ->
             0 <= gpiod_to_irq pdev j /\ request_threaded_irq pdev j = 0) ->
  gpiod_to_irq pdev k < 0 ->
  (allocate_polled_device pdev = true -> register_polled_device pdev = 0 ->
   rotary_encoder_probe pdev =
   Probe_ok (set_absolute_encoder true (probe_properties pdev))
     absolute_encoder_irq true) /\
  (allocate_polled_device pdev = true ->
   register_polled_device pdev <> 0 ->
   rotary_encoder_probe pdev = Probe_error (register_polled_device pdev)) /\
  (allocate_polled_device pdev = false ->
   rotary_encoder_probe pdev = Probe_error (- ENOMEM)).
Proof.
  intros Hk Hg Hlen Habs Hki Hp Hkn Hreq Hneg.
  assert (Hprobe :
            rotary_encoder_probe pdev =
            match (if negb (rotary_encoder_register_poll_device pdev =? 0)
                   then Irq_error (rotary_encoder_register_poll_device pdev)
                   else Irq_polled) with
            | Irq_error err => Probe_error err
            | Irq_polled =>
                Probe_ok (set_absolute_encoder true (probe_properties pdev))
                  absolute_encoder_irq true
            | Irq_requested => Probe_error 0
            end).
  { unfold rotary_encoder_probe. rewrite Hk, Hg. cbn [negb].
    destruct (Nat.ltb_spec (length gpios) 2); [lia|].
    unfold probe_handler. rewrite Habs.
    cbn [absolute_encoder set_absolute_encoder]. rewrite Hki. cbn [negb].
    rewrite (probe_irqs_poll_at pdev
               (set_absolute_encoder true (probe_properties pdev))
               Hp eq_refl k 0%nat);
      [|intros j Hj; apply Hreq; lia|assumption|assumption].
    destruct (negb (rotary_encoder_register_poll_device pdev =? 0));
      reflexivity. }
  rewrite Hprobe. unfold rotary_encoder_register_poll_device.
  split; [|split].
  - intros Ha Hr. rewrite Ha, Hr. reflexivity.
  - intros Ha Hr. rewrite Ha. cbn [negb].
    destruct (Z.eqb_spec (register_polled_device pdev) 0);
      [contradiction|reflexivity].
  - intros Ha. rewrite Ha. reflexivity.
Qed.

Lemma probe_poll_fallback_witness :
  rotary_encoder_probe polled_device =
  Probe_ok (set_absolute_encoder true (probe_properties polled_device))
    absolute_encoder_irq true.
Proof.
  assert (Hlen : (2 <= length [0; 1; 1])%nat) by (cbn; lia).
  assert (Hkn : (1 < length [0; 1; 1])%nat) by (cbn; lia).
  assert (Hreq : forall j, (j < 1)%nat ->
                           0 <= gpiod_to_irq polled_device j /\
                           request_threaded_irq polled_device j = 0).
  { intros j Hj. destruct j; [split; [cbn; lia|reflexivity]|lia]. }
  assert (Hneg : gpiod_to_irq polled_device 1 < 0) by (cbn; lia).
  exact (proj1 (probe_poll_fallback polled_device [0; 1; 1] 1
                  eq_refl eq_refl Hlen eq_refl eq_refl eq_refl Hkn Hreq Hneg)
           eq_refl eq_refl).
Defined.

(** * Quarter-period decoding tracks the state *)

Lemma rel_sum_app l1 l2 : rel_sum (l1 ++ l2) = rel_sum l1 + rel_sum l2.
Proof.
  induction l1 as [|ev l1 IH]; [reflexivity|].
  destruct ev; cbn [rel_sum app]; rewrite IH; lia.
Qed.

Lemma quarter_tracks_step e g :
  relative_axis e = true -> access_mutex e = false ->
  0 <= last_stable e < 4 ->
  rotary_encoder_get_state g <> (last_stable e + 2) mod 4 ->
  exists e1,
    rotary_encoder_quarter_period_irq g e = Returned tt e1 /\
    relative_axis e1 = true /\ access_mutex e1 = false /\
    last_stable e1 = rotary_encoder_get_state g /\
    (rel_sum (input e1) - rel_sum (input e)) mod 4 =
    (last_stable e1 - last_stable e) mod 4.
Proof.
  intros Hrel Hm Hls Hno.
  assert (Hok : report_ok e = true)
    by (unfold report_ok; rewrite Hrel; reflexivity).
  rewrite quarter_step by assumption. eexists. split; [reflexivity|].
  pose proof (get_state_range g) as Hs.
  set (s := rotary_encoder_get_state g) in *. clearbody s.
  assert (Hc : last_stable e = 0 \/ last_stable e = 1 \/
               last_stable e = 2 \/ last_stable e = 3) by lia.
  assert (Hcs : s = 0 \/ s = 1 \/ s = 2 \/ s = 3) by lia.
  enc e. cbn [last_stable set_last_stable].
  destruct Hc as [-> | [-> | [-> | ->]]];
    destruct Hcs as [-> | [-> | [-> | ->]]];
    try (exfalso; apply Hno; reflexivity);
    unfold after_report, reported; cbn; rewrite ?rel_sum_app; cbn [rel_sum];
    repeat split;
    match goal with
    | |- (?a - ?b) mod 4 = _ =>
        let x := fresh "x" in
        generalize (rel_sum inp); intros x;
        Z.to_euclidean_division_equations; lia
    end.
Qed.

(** X26: on a relative axis the quarter-period decoder keeps count of
    the state. Over any run of samples in which no decoded state is
    opposite to the one before it (no edge was missed), starting from a
    reference state in 0..3, the sum of the reported steps equals the
    travel of the reference state modulo 4. *)
Theorem quarter_period_tracks_state samples :
  forall e,
    relative_axis e = true -> access_mutex e = false ->
    0 <= last_stable e < 4 ->
    no_opposite (last_stable e) (map rotary_encoder_get_state samples) ->
    exists e',
      deliver quarter_period_irq samples e = Returned tt e' /\
      last_stable e' =
        last (map rotary_encoder_get_state samples) (last_stable e) /\
      (rel_sum (input e') - rel_sum (input e)) mod 4 =
      (last_stable e' - last_stable e) mod 4.
Proof.
  induction samples as [|g samples IH]; intros e Hrel Hm Hls Hno.
  - exists e. repeat split. rewrite !Z.sub_diag. reflexivity.
  - cbn [map no_opposite] in Hno. destruct Hno as [Hno Hrest].
    destruct (quarter_tracks_step e g Hrel Hm Hls Hno)
      as [e1 (Hrun & Hrel1 & Hm1 & Hls1 & Hsum1)].
    rewrite <- Hls1 in Hrest.
    destruct (IH e1 Hrel1 Hm1) as [e' (Hrun' & Hls' & Hsum')];
      [rewrite Hls1; apply get_state_range|exact Hrest|].
    exists e'. rewrite (deliver_cons quarter_period_irq g samples e e1 Hrun).
    split; [exact Hrun'|]. split.
    + rewrite Hls'. cbn [map]. rewrite last_cons_default, Hls1. reflexivity.
    + revert Hsum1 Hsum'.
      generalize (rel_sum (input e')), (rel_sum (input e1)),
        (rel_sum (input e)), (last_stable e'), (last_stable e1),
        (last_stable e).
      intros a b c x y z. Z.to_euclidean_division_equations. lia.
Qed.

Lemma quarter_period_tracks_state_witness :
  exists e',
    deliver quarter_period_irq [[0; 1]; [1; 1]; [0; 1]; [0; 0]; [1; 0]]
      relative_encoder = Returned tt e' /\
    last_stable e' =
      last (map rotary_encoder_get_state
              [[0; 1]; [1; 1]; [0; 1]; [0; 0]; [1; 0]])
        (last_stable relative_encoder) /\
    (rel_sum (input e') - rel_sum (input relative_encoder)) mod 4 =
    (last_stable e' - last_stable relative_encoder) mod 4.
Proof.
  assert (Hls : 0 <= last_stable relative_encoder < 4) by (cbn; lia).
  assert (Hno : no_opposite (last_stable relative_encoder)
                  (map rotary_encoder_get_state
                     [[0; 1]; [1; 1]; [0; 1]; [0; 0]; [1; 0]])).
  { vm_compute. repeat split; discriminate. }
  exact (quarter_period_tracks_state
           [[0; 1]; [1; 1]; [0; 1]; [0; 0]; [1; 0]] relative_encoder
           eq_refl eq_refl Hls Hno).
Defined.

(** * Rollover with [steps = 0] *)




